(** * mysql_info_exporter: a shallow embedding of [main.go]

    The exporter polls every configured MySQL target and republishes what it
    reads as Prometheus gauges.  This development embeds

    - the five gauge vectors of [main.go] and the registry that holds them,
    - the part of [database/sql]'s [Rows.Scan] that the three scan call sites
      of [main.go] exercise,
    - [collectConnCount] and [collectMetrics], as the sequence of effects
      (gauge writes and log lines) each call performs,
    - the polling loops and the start-up of [main], the latter as an
      interleaving step relation over the goroutines [main] spawns,

    and proves the properties the specification states about them. *)

From Stdlib Require Import ZArith Floats Ascii String.
From stdpp Require Import gmap strings pretty list fin_maps sorting.

#[local] Open Scope Z_scope.

(** ** Numbers *)

(** Go's [float64(n)] for an integer [n]: the nearest binary64 value, ties to
    even. *)
Definition float64_of_int (n : Z) : float :=
  SF2Prim (binary_normalize 53 1024 n 0 false).

(** Go's [int] and [int64] on the amd64 target the README builds for: 64-bit
    two's complement, arithmetic wraps around. *)
Definition wrap64 (n : Z) : Z := (n + 2 ^ 63) mod 2 ^ 64 - 2 ^ 63.

(** ** The gauge vectors (main.go, lines 17-52) *)

Inductive GaugeVec :=
  | tableSize
  | indexSize
  | tableRows
  | processListCount
  | connCount.

#[global] Instance GaugeVec_eq_dec : EqDecision GaugeVec.
Proof. solve_decision. Defined.

#[global] Instance GaugeVec_countable : Countable GaugeVec.
Proof.
  refine (inj_countable'
    (fun g => match g with
              | tableSize => 0%nat | indexSize => 1%nat | tableRows => 2%nat
              | processListCount => 3%nat | connCount => 4%nat end)
    (fun n => match n with
              | 0%nat => tableSize | 1%nat => indexSize | 2%nat => tableRows
              | 3%nat => processListCount | _ => connCount end) _).
  by intros [].
Defined.

(** [GaugeOpts.Name] of each vector, the name its samples are listed under. *)
Definition fqName (g : GaugeVec) : string :=
  match g with
  | tableSize => "mysql_table_size_bytes"
  | indexSize => "mysql_index_size_bytes"
  | tableRows => "mysql_table_rows"
  | processListCount => "mysql_processlist_count"
  | connCount => "mysql_conn_count"
  end.

(** The label names each vector is created with. *)
Definition labelNames (g : GaugeVec) : list string :=
  match g with
  | tableSize | indexSize | tableRows =>
      ["cloud_name"; "database"; "table"; "origin_prometheus"]
  | processListCount | connCount =>
      ["cloud_name"; "user"; "db"; "origin_prometheus"]
  end.

(** ** The registry

    A gauge vector maps a tuple of label values to the gauge holding the
    current value; [WithLabelValues(lvs...)] finds or creates the child and
    [Set] overwrites its value.  The five vectors together are one finite map
    keyed by the vector and the label values.  [WithLabelValues] first
    validates the label values and panics when it rejects them (see
    [validateLabelValues] and [outcome] below). *)
Abbreviation Key := (GaugeVec * list string)%type.
Abbreviation Registry := (gmap Key float).

(** The errors the collectors log: the one [db.Query] returned, or the one
    [rows.Scan] returned, which is either "expected [columns] destination
    arguments in Scan, not [dests]" or a conversion error at a column
    index. *)
Inductive error :=
  | ErrQuery (msg : string)
  | ErrScanArity (columns dests : nat)
  | ErrScanColumn (index : nat).

(** The calls a collector makes: [g.WithLabelValues(lvs...).Set(v)], which
    writes the gauge when [WithLabelValues] accepts the label values, or
    [log.Printf] (its format string and its two arguments).  A collector is
    embedded as the sequence of the calls it makes when each of them returns;
    [outcome] cuts the sequence where a call panics. *)
Inductive Event :=
  | EvSet (g : GaugeVec) (lvs : list string) (v : float)
  | EvLog (format cloudName : string) (err : error).

Definition step_event (r : Registry) (e : Event) : Registry :=
  match e with
  | EvSet g lvs v => <[(g, lvs) := v]> r
  | EvLog _ _ _ => r
  end.

(** The registry after a sequence of effects, oldest first. *)
Definition exec (evs : list Event) (r : Registry) : Registry :=
  foldl step_event r evs.

(** The gauge writes among the effects, as (key, value) pairs. *)
Definition writes (evs : list Event) : list (Key * float) :=
  omap (fun e => match e with
                 | EvSet g lvs v => Some ((g, lvs), v)
                 | EvLog _ _ _ => None
                 end) evs.

(** The keys written by a sequence of effects. *)
Definition written (evs : list Event) : list Key := (writes evs).*1.

(** ** Label validation

    [WithLabelValues] is [GetMetricWithLabelValues] with a panic on its
    error, and that returns an error when the number of values differs from
    the number of label names or when a value is not valid UTF-8
    ([utf8.ValidString]).  The panic is recovered nowhere in [main.go]: it
    ends the process. *)

(** [utf8.ValidString]: the bytes are a sequence of well-formed encodings.
    [first b] is the entry of the leading byte [b] in the table [first] of
    [unicode/utf8]: the size of the encoding and the range accepted for its
    second byte, or nothing for a byte that starts no encoding; the further
    bytes are continuation bytes, 0x80 to 0xBF. *)
Definition first (b : N) : option (nat * N * N) :=
  (if (b <? 194) then None                      (* 0x80-0xC1 *)
   else if (b <? 224) then Some (2%nat, 128, 191)     (* 0xC2-0xDF *)
   else if (b =? 224) then Some (3%nat, 160, 191)     (* 0xE0 *)
   else if (b =? 237) then Some (3%nat, 128, 159)     (* 0xED *)
   else if (b <? 240) then Some (3%nat, 128, 191)     (* 0xE1-0xEF *)
   else if (b =? 240) then Some (4%nat, 144, 191)     (* 0xF0 *)
   else if (b <? 244) then Some (4%nat, 128, 191)     (* 0xF1-0xF3 *)
   else if (b =? 244) then Some (4%nat, 128, 143)     (* 0xF4 *)
   else None)%N.

Definition between (lo hi : N) (c : ascii) : bool :=
  ((lo <=? N_of_ascii c) && (N_of_ascii c <=? hi))%N.

Fixpoint ValidString (s : string) : bool :=
  match s with
  | EmptyString => true
  | String si s1 =>
      if (N_of_ascii si <? 128)%N then ValidString s1
      else
        match first (N_of_ascii si), s1 with
        | Some (size, lo, hi), String c1 s2 =>
            if negb (between lo hi c1) then false
            else if (size =? 2)%nat then ValidString s2
            else
              match s2 with
              | String c2 s3 =>
                  if negb (between 128 191 c2) then false
                  else if (size =? 3)%nat then ValidString s3
                  else
                    match s3 with
                    | String c3 s4 =>
                        if negb (between 128 191 c3) then false
                        else ValidString s4
                    | EmptyString => false
                    end
              | EmptyString => false
              end
        | _, _ => false
        end
  end.

Definition validateLabelValues (g : GaugeVec) (lvs : list string) : bool :=
  (length lvs =? length (labelNames g))%nat && forallb ValidString lvs.

(** Whether a call returns. *)
Definition accepted (e : Event) : bool :=
  match e with
  | EvSet g lvs _ => validateLabelValues g lvs
  | EvLog _ _ _ => true
  end.

(** What becomes of a sequence of calls: all of them return, or the calls
    before the first [WithLabelValues] that rejects its label values return
    and that one panics, so that neither its [Set] nor any later call
    happens. *)
Inductive Outcome :=
  | Returned (evs : list Event)
  | Panicked (evs : list Event) (g : GaugeVec) (lvs : list string).

Definition performed (o : Outcome) : list Event :=
  match o with
  | Returned evs => evs
  | Panicked evs _ _ => evs
  end.

Definition after (e : Event) (o : Outcome) : Outcome :=
  match o with
  | Returned evs => Returned (e :: evs)
  | Panicked evs g lvs => Panicked (e :: evs) g lvs
  end.

Fixpoint outcome (evs : list Event) : Outcome :=
  match evs with
  | [] => Returned []
  | EvSet g lvs v :: rest =>
      if validateLabelValues g lvs then after (EvSet g lvs v) (outcome rest)
      else Panicked [] g lvs
  | EvLog format cloudName err :: rest =>
      after (EvLog format cloudName err) (outcome rest)
  end.

(** What the [/metrics] handler lists for the five gauge vectors: one sample
    per registry entry, under the vector's name, with the vector's label names
    and the entry's label values.  The page holds the handler's own series
    besides (see [pageSeries] below). *)
Record Sample := {
  sample_name : string;
  sample_label_names : list string;
  sample_label_values : list string;
  sample_value : float
}.

Definition sample_of (kv : Key * float) : Sample :=
  {| sample_name := fqName kv.1.1;
     sample_label_names := labelNames kv.1.1;
     sample_label_values := kv.1.2;
     sample_value := kv.2 |}.

(** The label set of a sample: each label name with its value. *)
Definition sample_labels (s : Sample) : list (string * string) :=
  zip (sample_label_names s) (sample_label_values s).

Definition render (r : Registry) : list Sample :=
  sample_of <$> map_to_list r.

(** The registry contains [name{labels} = v]: a listed sample has that name,
    that label set and that value. *)
Definition registry_contains (r : Registry) (name : string)
    (labels : list (string * string)) (v : float) : Prop :=
  exists s, s ∈ render r /\ sample_name s = name /\
            sample_labels s ≡ₚ labels /\ sample_value s = v.

(** ** Result rows and [Rows.Scan]

    The values a driver hands to [database/sql] for one column of one row
    ([driver.Value], without [time.Time], which none of the queried columns
    produces). *)
Inductive Value :=
  | VNil
  | VInt64 (n : Z)
  | VFloat64 (f : float)
  | VBool (b : bool)
  | VBytes (s : string)
  | VString (s : string).

Abbreviation Row := (list Value).

(** What [db.Query] returns: an error, or the rows that [rows.Next] then
    delivers. *)
Inductive QueryResult :=
  | QueryError (msg : string)
  | QueryRows (rows : list Row).

(** A database handle, as far as the collectors use it: the answer to a query
    text at the time of the call. *)
Abbreviation DB := (string -> QueryResult).

(** [sql.NullString], [sql.NullInt64], [sql.NullFloat64]: the value (Go's
    fields [String], [Int64], [Float64]) and [Valid]. *)
Record Null (A : Type) := mkNull { Val : A; Valid : bool }.
Arguments mkNull {A} _ _.
Arguments Val {A} _.
Arguments Valid {A} _.

(** [strconv.ParseInt(s, 10, 64)]: an optional sign, then one or more decimal
    digits, the value within the 64-bit range. *)
Definition digit_of (a : ascii) : option Z :=
  let n := Z.of_N (N_of_ascii a) in
  if (48 <=? n) && (n <=? 57) then Some (n - 48) else None.

Fixpoint parseDigits (acc : Z) (s : string) : option Z :=
  match s with
  | EmptyString => Some acc
  | String a s' =>
      match digit_of a with
      | Some d => parseDigits (10 * acc + d) s'
      | None => None
      end
  end.

Definition ParseInt (s : string) : option Z :=
  match s with
  | EmptyString => None
  | String a rest =>
      let neg := Ascii.eqb a "-" in
      let body := if Ascii.eqb a "+" || neg then rest else s in
      match body with
      | EmptyString => None
      | _ =>
          match parseDigits 0 body with
          | Some n =>
              let v := if neg then - n else n in
              if (- 2 ^ 63 <=? v) && (v <? 2 ^ 63) then Some v else None
          | None => None
          end
      end
  end.

(** [strconv.FormatInt(n, 10)]. *)
Definition FormatInt (n : Z) : string := pretty n.

(** [strconv.FormatFloat] (format g, shortest, 64 bits) and
    [strconv.ParseFloat] (64 bits): shortest round-trip printing and correctly
    rounded parsing of binary64 values.  The collectors reach them only
    through [Rows.Scan]; they are taken as given. *)
Class Strconv := {
  FormatFloat : float -> string;
  ParseFloat : string -> option float
}.

(** [Scan] either fills every destination or returns an error. *)
#[global] Instance error_bind : MBind (sum error) := fun A B k x =>
  match x with
  | inl e => inl e
  | inr a => k a
  end.

(** [userDbCount], a [map[string]map[string]int]. *)
Abbreviation UserDbCount := (gmap string (gmap string Z)).

Section Exporter.

Context `{!Strconv}.

(** [asString] of database/sql's convert.go. *)
Definition asString (src : Value) : string :=
  match src with
  | VNil => "<nil>"
  | VInt64 n => FormatInt n
  | VFloat64 f => FormatFloat f
  | VBool b => if b then "true" else "false"
  | VBytes s => s
  | VString s => s
  end.

(** [convertAssign] into a [*string]: NULL is refused, text is copied,
    numbers and booleans are printed. *)
Definition convertString (src : Value) : option string :=
  match src with
  | VNil => None
  | _ => Some (asString src)
  end.

(** [convertAssign] into a [*int]: NULL is refused, everything else goes
    through its text and [ParseInt]. *)
Definition convertInt (src : Value) : option Z :=
  match src with
  | VNil => None
  | _ => ParseInt (asString src)
  end.

(** [convertAssign] into a [*int64]: an [int64] is assigned as it is. *)
Definition convertInt64 (src : Value) : option Z :=
  match src with
  | VNil => None
  | VInt64 n => Some n
  | _ => ParseInt (asString src)
  end.

(** [convertAssign] into a [*float64]: a [float64] is assigned as it is. *)
Definition convertFloat64 (src : Value) : option float :=
  match src with
  | VNil => None
  | VFloat64 f => Some f
  | _ => ParseFloat (asString src)
  end.

(** The [Scan] methods of [NullString], [NullInt64] and [NullFloat64]: NULL
    gives the zero value with [Valid = false]; anything else sets [Valid] and
    converts. *)
Definition scanNull {A} (zero : A) (conv : Value -> option A) (src : Value)
    : option (Null A) :=
  match src with
  | VNil => Some (mkNull zero false)
  | _ => (fun a => mkNull a true) <$> conv src
  end.

Definition scanNullString : Value -> option (Null string) :=
  scanNull "" convertString.
Definition scanNullInt64 : Value -> option (Null Z) :=
  scanNull 0 convertInt64.
Definition scanNullFloat64 : Value -> option (Null float) :=
  scanNull 0%float convertFloat64.

(** A destination that fails to convert makes [Scan] return the error for
    that column index. *)
Definition column {A} (index : nat) (o : option A) : error + A :=
  match o with
  | Some a => inr a
  | None => inl (ErrScanColumn index)
  end.

(** [rows.Scan(&dbName, &userName, &count)] of [collectConnCount]:
    [sql.NullString], [sql.NullString], [int]. *)
Definition scanConnRow (row : Row) : error + (Null string * Null string * Z) :=
  match row with
  | [c0; c1; c2] =>
      dbName ← column 0 (scanNullString c0);
      userName ← column 1 (scanNullString c1);
      count ← column 2 (convertInt c2);
      inr (dbName, userName, count)
  | _ => inl (ErrScanArity (length row) 3)
  end.

(** [rows.Scan(&dbName, &tableName, &tableRowsVal, &dataSizeBytes,
    &indexSizeBytes)] of [collectMetrics]: [string], [string],
    [sql.NullInt64], [sql.NullFloat64], [sql.NullFloat64]. *)
Record TableRow := {
  dbName : string;
  tableName : string;
  tableRowsVal : Null Z;
  dataSizeBytes : Null float;
  indexSizeBytes : Null float
}.

Definition scanTableRow (row : Row) : error + TableRow :=
  match row with
  | [c0; c1; c2; c3; c4] =>
      d ← column 0 (convertString c0);
      t ← column 1 (convertString c1);
      n ← column 2 (scanNullInt64 c2);
      ds ← column 3 (scanNullFloat64 c3);
      ix ← column 4 (scanNullFloat64 c4);
      inr {| dbName := d; tableName := t; tableRowsVal := n;
             dataSizeBytes := ds; indexSizeBytes := ix |}
  | _ => inl (ErrScanArity (length row) 5)
  end.


(** [rows.Scan(&id, &user, &host, &db, &command, &time, &state, &info)] and
    the same with [&progress] appended: [int], then [sql.NullString]
    destinations, with [time] an [interface{}] that takes any value. *)
Record ProcessRow := {
  id : Z;
  user : Null string;
  host : Null string;
  db : Null string;
  command : Null string;
  time : Value;
  state : Null string;
  info : Null string;
  progress : Null string
}.

Definition scanProcessRow8 (row : Row) : error + ProcessRow :=
  match row with
  | [c0; c1; c2; c3; c4; c5; c6; c7] =>
      i ← column 0 (convertInt c0);
      u ← column 1 (scanNullString c1);
      h ← column 2 (scanNullString c2);
      d ← column 3 (scanNullString c3);
      c ← column 4 (scanNullString c4);
      st ← column 6 (scanNullString c6);
      inf ← column 7 (scanNullString c7);
      inr {| id := i; user := u; host := h; db := d; command := c;
             time := c5; state := st; info := inf;
             progress := mkNull "" false |}
  | _ => inl (ErrScanArity (length row) 8)
  end.

Definition scanProcessRow9 (row : Row) : error + ProcessRow :=
  match row with
  | [c0; c1; c2; c3; c4; c5; c6; c7; c8] =>
      i ← column 0 (convertInt c0);
      u ← column 1 (scanNullString c1);
      h ← column 2 (scanNullString c2);
      d ← column 3 (scanNullString c3);
      c ← column 4 (scanNullString c4);
      st ← column 6 (scanNullString c6);
      inf ← column 7 (scanNullString c7);
      p ← column 8 (scanNullString c8);
      inr {| id := i; user := u; host := h; db := d; command := c;
             time := c5; state := st; info := inf; progress := p |}
  | _ => inl (ErrScanArity (length row) 9)
  end.

(** The two nested [Scan] calls of the process-list loop: the 8-destination
    scan first; if it returns an error, the 9-destination scan; if that
    returns an error too, [continue]. *)
Definition scanProcessRow (row : Row) : option ProcessRow :=
  match scanProcessRow8 row with
  | inr p => Some p
  | inl _ =>
      match scanProcessRow9 row with
      | inr p => Some p
      | inl _ => None
      end
  end.

(** ** The queries *)

Definition nl : string := String "010" EmptyString.
Definition tab : string := String "009" EmptyString.

Definition connCountQuery : string :=
  nl +:+ tab +:+ tab +:+ "SELECT db, user, count(" +:+ "*) " +:+
  nl +:+ tab +:+ tab +:+ "FROM information_schema.processlist " +:+
  nl +:+ tab +:+ tab +:+ "GROUP BY db, user " +:+
  nl +:+ tab +:+ tab +:+ "ORDER BY 3 DESC " +:+
  nl +:+ tab +:+ tab +:+ "LIMIT 20" +:+
  nl +:+ tab.

Definition tableSizeQuery : string :=
  nl +:+ "        SELECT" +:+
  nl +:+ "        table_schema AS `db_name`," +:+
  nl +:+ "        table_name AS `table`," +:+
  nl +:+ "        table_rows," +:+
  nl +:+ "        data_length AS `data_size_bytes`," +:+
  nl +:+ "        index_length AS `index_size_bytes`" +:+
  nl +:+ "    " +:+ tab +:+ "FROM" +:+
  nl +:+ "        information_schema.tables" +:+
  nl +:+ "    " +:+ tab +:+ "ORDER BY" +:+
  nl +:+ "        data_length DESC, index_length DESC".

Definition showProcesslistQuery : string := "SHOW PROCESSLIST".

(** ** [collectConnCount] (main.go, lines 89-124) *)

(** The sentinel substitution both collectors apply to a nullable label. *)
Definition orSentinel (sentinel : string) (ns : Null string) : string :=
  if Valid ns then Val ns else sentinel.

(** One iteration of the [for rows.Next()] loop. *)
Definition connCountRow (cloudName originPrometheus : string) (row : Row)
    : list Event :=
  match scanConnRow row with
  | inl err =>
      [EvLog "database %s: Error scanning connection count row: %v"
             cloudName err]
  | inr (dbName, userName, count) =>
      let db := orSentinel "UNKNOWN_DB" dbName in
      let user := orSentinel "UNKNOWN_USER" userName in
      [EvSet connCount [cloudName; user; db; originPrometheus]
             (float64_of_int count)]
  end.

Definition collectConnCount (db : DB) (cloudName originPrometheus : string)
    : list Event :=
  match db connCountQuery with
  | QueryError msg =>
      [EvLog "database %s: Error executing connection count query: %v"
             cloudName (ErrQuery msg)]
  | QueryRows rows => rows ≫= connCountRow cloudName originPrometheus
  end.

(** ** [collectMetrics] (main.go, lines 126-208) *)

(** One iteration of the storage loop. *)
Definition tableSizeRow (cloudName originPrometheus : string) (row : Row)
    : list Event :=
  match scanTableRow row with
  | inl err => [EvLog "database %s: Error scanning row: %v" cloudName err]
  | inr r =>
      let lvs := [cloudName; dbName r; tableName r; originPrometheus] in
      [EvSet tableSize lvs (Val (dataSizeBytes r));
       EvSet indexSize lvs (Val (indexSizeBytes r));
       if Valid (tableRowsVal r)
       then EvSet tableRows lvs (float64_of_int (Val (tableRowsVal r)))
       else EvSet tableRows lvs 0%float]
  end.

(** One iteration of the process-list loop: a row neither scan accepts is
    skipped; otherwise the inner map of the user is created when missing and
    the counter of the database is incremented. *)
Definition processlistRow (userDbCount : UserDbCount) (row : Row)
    : UserDbCount :=
  match scanProcessRow row with
  | None => userDbCount
  | Some p =>
      let userStr := orSentinel "UNKNOWN_USER" (user p) in
      let dbStr := orSentinel "UNKNOWN_DB" (db p) in
      let userDbCount :=
        match userDbCount !! userStr with
        | Some _ => userDbCount
        | None => <[userStr := ∅]> userDbCount
        end in
      let dbCounts := default ∅ (userDbCount !! userStr) in
      <[userStr :=
          <[dbStr := wrap64 (default 0 (dbCounts !! dbStr) + 1)]> dbCounts]>
        userDbCount
  end.

(** The export loops over [userDbCount].  Go leaves the order in which
    [range] visits a map unspecified; [map_to_list] fixes one. *)
Definition exportProcesslist (cloudName originPrometheus : string)
    (userDbCount : UserDbCount) : list Event :=
  '(user, dbCounts) ← map_to_list userDbCount;
  '(db, count) ← map_to_list dbCounts;
  [EvSet processListCount [cloudName; user; db; originPrometheus]
         (float64_of_int count)].

(** The second half of [collectMetrics], from [SHOW PROCESSLIST] on. *)
Definition collectProcesslist (db : DB) (cloudName originPrometheus : string)
    : list Event :=
  match db showProcesslistQuery with
  | QueryError msg =>
      [EvLog "database %s: Error executing SHOW PROCESSLIST: %v"
             cloudName (ErrQuery msg)]
  | QueryRows rows =>
      exportProcesslist cloudName originPrometheus
        (foldl processlistRow ∅ rows)
  end.

Definition collectMetrics (db : DB) (cloudName originPrometheus : string)
    : list Event :=
  match db tableSizeQuery with
  | QueryError msg =>
      [EvLog "database %s: Error executing table size query: %v"
             cloudName (ErrQuery msg)]
  | QueryRows rows =>
      (rows ≫= tableSizeRow cloudName originPrometheus) ++
      collectProcesslist db cloudName originPrometheus
  end.

(** ** The polling loops of [main] (main.go, lines 232-245)

    [for { collect(db, ...); time.Sleep(...) }]: the effects of the first
    iterations, given what the database answers in each of them. *)
Definition connCountLoop (cycles : list DB)
    (cloudName originPrometheus : string) : list Event :=
  db ← cycles; collectConnCount db cloudName originPrometheus.

Definition metricsLoop (cycles : list DB)
    (cloudName originPrometheus : string) : list Event :=
  db ← cycles; collectMetrics db cloudName originPrometheus.

(** One call of a collector by some poller. *)
Inductive Op :=
  | CollectMetrics (db : DB) (cloudName originPrometheus : string)
  | CollectConnCount (db : DB) (cloudName originPrometheus : string).

Definition runOp (op : Op) : list Event :=
  match op with
  | CollectMetrics db c o => collectMetrics db c o
  | CollectConnCount db c o => collectConnCount db c o
  end.

(** Any number of collector calls, of any pollers, in the order they
    happen. *)
Definition runOps (ops : list Op) : list Event := ops ≫= runOp.

(** ** [main] (main.go, lines 210-251)

    [main] starts one goroutine per configured database and then serves
    [/metrics]; each goroutine opens its database, starts the connection-count
    loop in a further goroutine and runs the storage loop itself.  The
    goroutines run concurrently with [main]: the process is a set of program
    counters, and a step is a step of any one of them. *)
Record dbConfig := {
  Name : string;
  DSN : string;
  OriginPrometheus : string
}.

Inductive Goroutine :=
  | GOpen (c : dbConfig)      (* started, [sql.Open] not yet called *)
  | GMetrics (c : dbConfig)   (* in the [collectMetrics] loop *)
  | GConnCount (c : dbConfig) (* in the [collectConnCount] loop *).

Inductive MainPC :=
  | MSpawn (todo : list dbConfig)  (* in the [range config.Databases] loop *)
  | MServe                         (* inside [http.ListenAndServe] *).

(** [served] holds, for each scrape answered so far, the samples of the gauge
    vectors on its page. *)
Record Process := {
  mainpc : MainPC;
  goroutines : list Goroutine;
  registry : Registry;
  listening : bool;
  served : list (list Sample);
  exit : option Z
}.

(** The process after [readConfig] returned the configuration. *)
Definition start (databases : list dbConfig) : Process :=
  {| mainpc := MSpawn databases; goroutines := []; registry := ∅;
     listening := false; served := []; exit := None |}.

(** [log.Fatalf] and [log.Fatal] print and call [os.Exit(1)]: when
    [sql.Open] returns an error, and when [http.ListenAndServe] returns, which
    it does with an error, at once if it cannot listen. *)
Definition fatal (p : Process) : Process :=
  {| mainpc := mainpc p; goroutines := goroutines p; registry := registry p;
     listening := listening p; served := served p; exit := Some 1 |}.

Definition collected (evs : list Event) (p : Process) : Process :=
  {| mainpc := mainpc p; goroutines := goroutines p;
     registry := exec evs (registry p);
     listening := listening p; served := served p; exit := exit p |}.

(** [sqlOpen dsn] tells whether [sql.Open("mysql", dsn)] succeeds. *)
Inductive step (sqlOpen : string -> bool) : Process -> Process -> Prop :=
  | step_go p c todo :
      exit p = None -> mainpc p = MSpawn (c :: todo) ->
      step sqlOpen p
        {| mainpc := MSpawn todo; goroutines := goroutines p ++ [GOpen c];
           registry := registry p; listening := listening p;
           served := served p; exit := None |}
  | step_listen p :
      exit p = None -> mainpc p = MSpawn [] ->
      step sqlOpen p
        {| mainpc := MServe; goroutines := goroutines p;
           registry := registry p; listening := true;
           served := served p; exit := None |}
  | step_listen_error p :
      exit p = None -> mainpc p = MSpawn [] ->
      step sqlOpen p (fatal p)
  | step_serve_error p :
      exit p = None -> mainpc p = MServe ->
      step sqlOpen p (fatal p)
  | step_scrape p :
      exit p = None -> listening p = true ->
      step sqlOpen p
        {| mainpc := mainpc p; goroutines := goroutines p;
           registry := registry p; listening := true;
           served := served p ++ [render (registry p)]; exit := None |}
  | step_open_error p i c :
      exit p = None -> goroutines p !! i = Some (GOpen c) ->
      sqlOpen (DSN c +:+ "?timeout=30s") = false ->
      step sqlOpen p (fatal p)
  | step_open p i c :
      exit p = None -> goroutines p !! i = Some (GOpen c) ->
      sqlOpen (DSN c +:+ "?timeout=30s") = true ->
      step sqlOpen p
        {| mainpc := mainpc p;
           goroutines := <[i := GMetrics c]> (goroutines p) ++ [GConnCount c];
           registry := registry p; listening := listening p;
           served := served p; exit := None |}
  | step_metrics p i c (db : DB) :
      exit p = None -> goroutines p !! i = Some (GMetrics c) ->
      step sqlOpen p
        (collected (collectMetrics db (Name c) (OriginPrometheus c)) p)
  | step_conn_count p i c (db : DB) :
      exit p = None -> goroutines p !! i = Some (GConnCount c) ->
      step sqlOpen p
        (collected (collectConnCount db (Name c) (OriginPrometheus c)) p).

(** The states [main] can reach with the given configuration. *)
Inductive reachable (sqlOpen : string -> bool) (databases : list dbConfig)
    : Process -> Prop :=
  | reachable_start : reachable sqlOpen databases (start databases)
  | reachable_step p p' :
      reachable sqlOpen databases p -> step sqlOpen p p' ->
      reachable sqlOpen databases p'.

(** ** Vocabulary of the statements *)

(** The three gauge writes of a scanned row. *)
Definition tableRowUpdates (cloudName originPrometheus : string) (r : TableRow)
    : list Event :=
  let lvs := [cloudName; dbName r; tableName r; originPrometheus] in
  [EvSet tableSize lvs (Val (dataSizeBytes r));
   EvSet indexSize lvs (Val (indexSizeBytes r));
   EvSet tableRows lvs
     (if Valid (tableRowsVal r) then float64_of_int (Val (tableRowsVal r))
      else 0%float)].

(** The (user, db) group the process-list loop counts a row in, when one of
    the two scans accepts the row. *)
Definition processGroup (row : Row) : option (string * string) :=
  p ← scanProcessRow row;
  Some (orSentinel "UNKNOWN_USER" (user p), orSentinel "UNKNOWN_DB" (db p)).

Definition processGroups (rows : list Row) : list (string * string) :=
  omap processGroup rows.


(** [userDbCount[user][db]], when both entries exist. *)
Definition lookup2 (m : UserDbCount) (u d : string) : option Z :=
  m !! u ≫= (.!! d).



(** The target a collector call is for, and which of the two collectors it
    is. *)
Definition opTarget (op : Op) : string * string :=
  match op with
  | CollectMetrics _ c o => (c, o)
  | CollectConnCount _ c o => (c, o)
  end.

Definition opIsConnCount (op : Op) : bool :=
  match op with
  | CollectMetrics _ _ _ => false
  | CollectConnCount _ _ _ => true
  end.


(** The label a nullable text column gives: the sentinel for NULL, the text
    of the value otherwise. *)
Definition labelOf (sentinel : string) (c : Value) : string :=
  match c with
  | VNil => sentinel
  | _ => asString c
  end.



(** A row in which NULL in a label column is spelled as its sentinel. *)
Definition spellNull (sentinel : string) (c : Value) : Value :=
  match c with
  | VNil => VBytes sentinel
  | _ => c
  end.

Definition spellProcessRow (row : Row) : Row :=
  match row with
  | c0 :: c1 :: c2 :: c3 :: rest =>
      c0 :: spellNull "UNKNOWN_USER" c1 :: c2 :: spellNull "UNKNOWN_DB" c3
      :: rest
  | _ => row
  end.

Definition spellConnRow (row : Row) : Row :=
  match row with
  | [c0; c1; c2] =>
      [spellNull "UNKNOWN_DB" c0; spellNull "UNKNOWN_USER" c1; c2]
  | _ => row
  end.

(** Whether the database answers a query with rows. *)
Definition answered (query : string) (db : DB) : bool :=
  match db query with
  | QueryRows _ => true
  | QueryError _ => false
  end.

(** The targets [main] has still to start a goroutine for, and the targets
    of the goroutines that wait to open, run the storage loop, and run the
    connection-count loop. *)
Definition pending (p : Process) : list dbConfig :=
  match mainpc p with
  | MSpawn todo => todo
  | MServe => []
  end.

Definition opening (gs : list Goroutine) : list dbConfig :=
  omap (fun g => match g with GOpen c => Some c | _ => None end) gs.

Definition polling (gs : list Goroutine) : list dbConfig :=
  omap (fun g => match g with GMetrics c => Some c | _ => None end) gs.

Definition counting (gs : list Goroutine) : list dbConfig :=
  omap (fun g => match g with GConnCount c => Some c | _ => None end) gs.

(** The series of a scrape: the name and the label values of each sample. *)
Definition series (snapshot : list Sample) : list (string * list string) :=
  (fun s => (sample_name s, sample_label_values s)) <$> snapshot.




(** A (user, db) or (database, table) pair of label values that
    [WithLabelValues] accepts. *)
Definition ValidPair (g : string * string) : Prop :=
  ValidString g.1 = true /\ ValidString g.2 = true.

End Exporter.

(** * The rest of [main.go]: [init], [readConfig] and the start of [main] *)

(** ** [init] (main.go, lines 54-65)

    The collectors the default registerer holds or is offered: the five gauge
    vectors and the three collectors [init] unregisters. *)
Inductive Collector :=
  | VecCollector (g : GaugeVec)
  | GoCollector
  | BuildInfoCollector
  | ProcessCollector.

#[global] Instance Collector_eq_dec : EqDecision Collector.
Proof. solve_decision. Defined.

(** Two collectors collide when they describe a metric of the same name:
    two vectors of the same [GaugeOpts.Name], or the same collector twice. *)
Definition collides (c c' : Collector) : bool :=
  match c, c' with
  | VecCollector g, VecCollector g' => bool_decide (fqName g = fqName g')
  | _, _ => bool_decide (c = c')
  end.

(** [prometheus.MustRegister(c)]: panics ([None]) when [c] collides with a
    registered collector, and registers [c] otherwise. *)
Definition MustRegister (c : Collector) (registered : list Collector)
    : option (list Collector) :=
  if existsb (collides c) registered then None else Some (registered ++ [c]).

(** [prometheus.Unregister(c)]: removes [c] when it is registered; the
    result, which tells whether it was, is dropped by [init]. *)
Definition Unregister (c : Collector) (registered : list Collector)
    : list Collector :=
  filter (fun c' => c' <> c) registered.

(** [init], from the collectors registered before it runs. *)
Definition init (registered : list Collector) : option (list Collector) :=
  r ← MustRegister (VecCollector tableSize) registered;
  r ← MustRegister (VecCollector indexSize) r;
  r ← MustRegister (VecCollector tableRows) r;
  r ← MustRegister (VecCollector processListCount) r;
  r ← MustRegister (VecCollector connCount) r;
  Some (Unregister ProcessCollector
          (Unregister BuildInfoCollector (Unregister GoCollector r))).

(** ** [readConfig] (main.go, lines 67-87) *)

Record Config := { Databases : list dbConfig }.

Section ReadConfig.

(** [ioutil.ReadFile] and [yaml.Unmarshal], taken as given: the content of a
    file or an error, and the configuration a document is decoded into,
    starting from the one passed, with an error when the document is
    malformed. *)
Variable ReadFile : string -> string + string.
Variable Unmarshal : string -> Config -> Config * option string.

Definition readConfig (filename : string) : Config * option string :=
  let config := {| Databases := [] |} in
  match ReadFile filename with
  | inl err => (config, Some err)
  | inr data =>
      let '(config, err) := Unmarshal data config in
      match err with
      | Some err => (config, Some err)
      | None => (config, None)
      end
  end.

(** The first lines of [main]: [log.Fatalf] when [readConfig] returns an
    error, the loop over [config.Databases] otherwise. *)
Definition boot : Process :=
  match readConfig "config.yaml" with
  | (_, Some _) => fatal (start [])
  | (config, None) => start (Databases config)
  end.

End ReadConfig.

(** * Inputs of the worked examples *)

(** [FormatFloat] and [ParseFloat] on the integers: a binary64 value that is
    an integer of at most six digits prints as that integer, and a decimal
    integer literal within the 64-bit range parses to the nearest binary64
    value.  Outside of this the instance gives the empty text and a parse
    error; no example reaches it there. *)
Definition integral (f : float) : option Z :=
  match Prim2SF f with
  | S754_zero s => if s then None else Some 0
  | S754_finite s m e =>
      let magnitude :=
        if 0 <=? e then Some (Z.pos m * 2 ^ e)
        else if Z.pos m mod 2 ^ (- e) =? 0 then Some (Z.pos m / 2 ^ (- e))
        else None in
      (fun n => if s then - n else n) <$> magnitude
  | _ => None
  end.

Definition decimalStrconv : Strconv := {|
  FormatFloat f :=
    match integral f with
    | Some n => if Z.abs n <? 10 ^ 6 then FormatInt n else ""
    | None => ""
    end;
  ParseFloat s :=
    match ParseInt s with
    | Some n =>
        if (n =? 0) && String.prefix "-" s then None
        else Some (float64_of_int n)
    | None => None
    end
|}.

Definition shard1 : dbConfig :=
  {| Name := "shard1"; DSN := "exporter:secret@tcp(10.0.0.5:3306)/";
     OriginPrometheus := "prod" |}.


Definition users_row : Row :=
  [VBytes "app"; VBytes "users"; VBytes "100"; VBytes "2048"; VBytes "512"].

(** A view has NULL in the three numeric columns. *)
Definition view_row : Row :=
  [VBytes "app"; VBytes "active_users"; VNil; VNil; VNil].

(** Four process-list rows: one of 8 columns, one of 9, one with NULL user,
    and one of 4 columns that neither scan accepts. *)
Definition processlist_rows : list Row :=
  [[VInt64 1; VBytes "root"; VBytes "10.0.0.9:51000"; VNil; VBytes "Query";
    VInt64 0; VNil; VBytes "SHOW PROCESSLIST"];
   [VInt64 2; VBytes "root"; VBytes "10.0.0.9:51002"; VNil; VBytes "Sleep";
    VInt64 7; VNil; VNil; VBytes "0.000"];
   [VInt64 3; VNil; VBytes "10.0.0.9:51004"; VBytes "app"; VBytes "Connect";
    VInt64 0; VBytes "login"; VNil];
   [VInt64 4; VNil; VBytes "10.0.0.9:51006"; VBytes "app"]].

(** What a server answers to [connCountQuery] when its connections have the
    given (db, user) pairs: one row per distinct pair with the number of its
    connections, the rows ordered by that number, largest first, and cut
    after the twentieth. *)
Definition cell (o : option string) : Value :=
  match o with
  | Some s => VBytes s
  | None => VNil
  end.

Definition connCountAnswer (connections : list (option string * option string))
    : list Row :=
  let groups :=
    (fun g => (g, length (filter (g =.) connections)))
      <$> remove_dups connections in
  let ordered :=
    @merge_sort _ (fun a b => (b.2 <= a.2)%nat)
      (fun a b => decide (b.2 <= a.2)%nat) groups in
  (fun '(d, u, n) => [cell d; cell u; VBytes (pretty (Z.of_nat n))])
    <$> take 20 ordered.

(** Twenty-five users of the database app, user0 with 25 connections, user1
    with 24, down to user24 with one. *)
Definition connections25 : list (option string * option string) :=
  i ← seqZ 0 25;
  replicate (Z.to_nat (25 - i)) (Some "app", Some ("user" +:+ pretty i)).

Definition conn_rows : list Row := connCountAnswer connections25.

Definition answers (tables processlist conns : QueryResult) : DB :=
  fun query =>
    if String.eqb query tableSizeQuery then tables
    else if String.eqb query showProcesslistQuery then processlist
    else if String.eqb query connCountQuery then conns
    else QueryError "You have an error in your SQL syntax".

Definition shard1_db : DB :=
  answers (QueryRows [users_row]) (QueryRows processlist_rows)
          (QueryRows conn_rows).

Definition users_db : DB :=
  answers (QueryRows [users_row]) (QueryRows []) (QueryRows []).

Definition views_db : DB :=
  answers (QueryRows [users_row; view_row]) (QueryRows [])
          (QueryRows []).

(** The server after the table users was dropped. *)
Definition empty_db : DB :=
  answers (QueryRows []) (QueryRows []) (QueryRows []).

Definition down_db : DB :=
  fun _ => QueryError "dial tcp 10.0.0.5:3306: connect: connection refused".

(** A server that loses the connection after the storage query: a storage
    result with a row of two columns between two good rows, no process list,
    and a connection-count result with a NULL count and a short row. *)
Definition short_row : Row := [VBytes "app"; VBytes "orders"].

Definition odd_conn_rows : list Row :=
  [[VNil; VBytes "root"; VInt64 3];
   [VBytes "app"; VNil; VNil];
   [VBytes "app"]].

Definition lost_db : DB :=
  answers (QueryRows [users_row; short_row; view_row])
          (QueryError "Lost connection to MySQL server during query")
          (QueryRows odd_conn_rows).

(** A server whose user josé reaches the exporter in Latin-1, the é as the
    one byte 0xE9, which is not valid UTF-8: one connection of that user to
    the database app. *)
Definition latin1_jose : string := "jos" +:+ String "233"%char "".

Definition latin1_process_row : Row :=
  [VInt64 5; VBytes latin1_jose; VBytes "10.0.0.9:51008"; VBytes "app";
   VBytes "Sleep"; VInt64 3; VNil; VNil].

Definition latin1_conn_row : Row := [VBytes "app"; VBytes latin1_jose; VInt64 1].

(** The table of that name, between the table users and the view. *)
Definition latin1_table_row : Row :=
  [VBytes "app"; VBytes latin1_jose; VBytes "7"; VBytes "16384"; VBytes "0"].

Definition latin1_db : DB :=
  answers (QueryRows [users_row; latin1_table_row; view_row])
          (QueryRows [latin1_process_row])
          (QueryRows [latin1_conn_row]).

(** A run of the exporter of the one target shard1: [main] has started the
    goroutine and listens, a first scrape is answered before the goroutine
    opens the database, then the goroutine opens it, one storage cycle runs
    and a second scrape is answered. *)
Definition shard1_spawned : Process :=
  {| mainpc := MSpawn []; goroutines := [GOpen shard1]; registry := ∅;
     listening := false; served := []; exit := None |}.

Definition shard1_listening : Process :=
  {| mainpc := MServe; goroutines := [GOpen shard1]; registry := ∅;
     listening := true; served := []; exit := None |}.

Definition shard1_waiting : Process :=
  {| mainpc := MServe; goroutines := [GOpen shard1]; registry := ∅;
     listening := true; served := [[]]; exit := None |}.

Definition shard1_opened : Process :=
  {| mainpc := MServe; goroutines := [GMetrics shard1; GConnCount shard1];
     registry := ∅; listening := true; served := [[]]; exit := None |}.

Definition shard1_collected : Process :=
  collected (@collectMetrics decimalStrconv users_db "shard1" "prod")
            shard1_opened.

Definition shard1_scraped : Process :=
  {| mainpc := MServe; goroutines := [GMetrics shard1; GConnCount shard1];
     registry := registry shard1_collected; listening := true;
     served := [[]; render (registry shard1_collected)]; exit := None |}.


(** [ioutil.ReadFile] without the file and with it, and a [yaml.Unmarshal]
    that decodes the one target shard1 and then finds the document
    malformed, or well-formed. *)
Definition no_file (filename : string) : string + string :=
  inl ("open " +:+ filename +:+ ": no such file or directory").

Definition some_file (filename : string) : string + string :=
  inr "databases: [{name: shard1}]".

Definition decode_malformed (data : string) (config : Config)
    : Config * option string :=
  ({| Databases := [shard1] |}, Some "yaml: line 1: did not find expected key").

Definition decode_shard1 (data : string) (config : Config)
    : Config * option string :=
  ({| Databases := [shard1] |}, None).

(** * Properties *)

(** ** The registry under a sequence of effects *)

Lemma exec_app (evs1 evs2 : list Event) (r : Registry) :
  exec (evs1 ++ evs2) r = exec evs2 (exec evs1 r).
Proof. apply foldl_app. Qed.

Lemma writes_app (evs1 evs2 : list Event) :
  writes (evs1 ++ evs2) = writes evs1 ++ writes evs2.
Proof. apply omap_app. Qed.


Lemma writes_bind {A} (f : A -> list Event) (l : list A) :
  writes (l ≫= f) = l ≫= (fun a => writes (f a)).
Proof.
  induction l as [|a l IH]; [done|].
  by rewrite !bind_cons, writes_app, IH.
Qed.

(** The registry after [evs] is the registry before, overlaid with the last
    value written to each key. *)
Lemma exec_union (evs : list Event) (r : Registry) :
  exec evs r = list_to_map (reverse (writes evs)) ∪ r.
Proof.
  induction evs as [|e evs IH] using rev_ind.
  - simpl. by rewrite (left_id_L ∅ (∪)).
  - rewrite exec_app, writes_app, reverse_app, IH. destruct e as [g lvs v|f c err].
    + simpl. by rewrite insert_union_l.
    + done.
Qed.

Lemma exec_unwritten (evs : list Event) (r : Registry) (k : Key) :
  k ∉ written evs -> exec evs r !! k = r !! k.
Proof.
  intros Hk. rewrite exec_union, lookup_union_r; [done|].
  apply not_elem_of_list_to_map_1.
  by rewrite fmap_reverse, elem_of_reverse.
Qed.

Lemma exec_idempotent (evs : list Event) (r : Registry) :
  exec evs (exec evs r) = exec evs r.
Proof.
  rewrite !exec_union, (assoc_L (∪)). f_equal. apply (idemp_L (∪)).
Qed.

Lemma exec_keeps (evs : list Event) (r : Registry) (k : Key) :
  is_Some (r !! k) -> is_Some (exec evs r !! k).
Proof.
  intros [v Hv]. rewrite exec_union.
  destruct ((list_to_map (reverse (writes evs)) : Registry) !! k)
    as [w|] eqn:Hw.
  - exists w. by apply lookup_union_Some_l.
  - exists v. by rewrite lookup_union_r.
Qed.

Lemma exec_last_write (evs1 evs2 : list Event) (r : Registry) g lvs v :
  (g, lvs) ∉ written evs2 ->
  exec (evs1 ++ EvSet g lvs v :: evs2) r !! (g, lvs) = Some v.
Proof.
  intros Hk. rewrite exec_app. simpl.
  change (foldl step_event ?a evs2) with (exec evs2 a).
  rewrite exec_unwritten by done. apply lookup_insert_eq.
Qed.


Lemma elem_of_render (r : Registry) (s : Sample) :
  s ∈ render r <-> exists k v, r !! k = Some v /\ s = sample_of (k, v).
Proof.
  unfold render. rewrite list_elem_of_fmap. split.
  - intros [[k v] [-> H]]. exists k, v. by rewrite <- elem_of_map_to_list.
  - intros (k & v & H & ->). exists (k, v). by rewrite elem_of_map_to_list.
Qed.

#[global] Instance fqName_inj : Inj (=) (=) fqName.
Proof. intros [] []; simpl; intros; done. Qed.

#[global] Instance sample_of_inj : Inj (=) (=) sample_of.
Proof.
  intros [[g1 l1] v1] [[g2 l2] v2]. unfold sample_of; simpl.
  intros [= Hn _ -> ->]. by apply (inj fqName) in Hn as ->.
Qed.

(** The registry lists every series (name and label values) once. *)
Lemma render_series_NoDup (r : Registry) :
  NoDup ((fun s => (sample_name s, sample_label_values s)) <$> render r).
Proof.
  unfold render. rewrite <- list_fmap_compose.
  assert (forall l : list (Key * float),
    ((fun s => (sample_name s, sample_label_values s)) ∘ sample_of) <$> l =
    (fun k : Key => (fqName k.1, k.2)) <$> l.*1) as ->.
  { intros l. rewrite <- list_fmap_compose. by apply list_fmap_ext. }
  apply NoDup_fmap_2; [|apply NoDup_fst_map_to_list].
  intros [g1 l1] [g2 l2] [= Hn ->]. by apply (inj fqName) in Hn as ->.
Qed.

(** ** Calls that return and calls that panic *)

Lemma outcome_accepted (evs : list Event) :
  Forall (fun e => accepted e = true) evs -> outcome evs = Returned evs.
Proof.
  induction 1 as [|e evs He _ IH]; [done|].
  destruct e as [g lvs v|format cloudName err]; simpl in *.
  - by rewrite He, IH.
  - by rewrite IH.
Qed.

Lemma outcome_panics (pre post : list Event) (g : GaugeVec)
    (lvs : list string) (v : float) :
  Forall (fun e => accepted e = true) pre ->
  validateLabelValues g lvs = false ->
  outcome (pre ++ EvSet g lvs v :: post) = Panicked pre g lvs.
Proof.
  intros Hpre Hbad. induction Hpre as [|e pre He _ IH]; simpl.
  - by rewrite Hbad.
  - destruct e as [g' lvs' v'|format cloudName err]; simpl in *.
    + by rewrite He, IH.
    + by rewrite IH.
Qed.

Lemma validateLabelValues_four (g : GaugeVec) (a b c d : string) :
  validateLabelValues g [a; b; c; d] = true <->
  ValidString a = true /\ ValidString b = true /\
  ValidString c = true /\ ValidString d = true.
Proof.
  unfold validateLabelValues. destruct g; simpl;
    rewrite !andb_true_iff; tauto.
Qed.


Lemma accepted_bind {A} (f : A -> list Event) (l : list A) :
  Forall (fun x => Forall (fun e => accepted e = true) (f x)) l ->
  Forall (fun e => accepted e = true) (l ≫= f).
Proof.
  induction 1 as [|x l Hx _ IH]; [constructor|].
  rewrite bind_cons. by apply Forall_app.
Qed.

Section Properties.

Context `{!Strconv}.

(** ** Query failures *)

(** C4: when the storage query or the connection-count query fails, the
    collector logs the error and performs no gauge write, so the registry is
    left as it was; the polling loop goes on with its next iteration. *)
Theorem query_failure_skips_cycle (db : DB) (cloudName originPrometheus : string)
    (msg : string) (r : Registry) (cycles : list DB) :
  (db tableSizeQuery = QueryError msg ->
     let line := EvLog "database %s: Error executing table size query: %v"
                       cloudName (ErrQuery msg) in
     collectMetrics db cloudName originPrometheus = [line] /\
     writes (collectMetrics db cloudName originPrometheus) = [] /\
     exec (collectMetrics db cloudName originPrometheus) r = r /\
     metricsLoop (db :: cycles) cloudName originPrometheus =
       line :: metricsLoop cycles cloudName originPrometheus) /\
  (db connCountQuery = QueryError msg ->
     let line := EvLog "database %s: Error executing connection count query: %v"
                       cloudName (ErrQuery msg) in
     collectConnCount db cloudName originPrometheus = [line] /\
     writes (collectConnCount db cloudName originPrometheus) = [] /\
     exec (collectConnCount db cloudName originPrometheus) r = r /\
     connCountLoop (db :: cycles) cloudName originPrometheus =
       line :: connCountLoop cycles cloudName originPrometheus).
Proof.
  split; intros Hq line.
  - assert (collectMetrics db cloudName originPrometheus = [line]) as Hc
      by (unfold collectMetrics; by rewrite Hq).
    unfold metricsLoop. rewrite bind_cons, Hc. done.
  - assert (collectConnCount db cloudName originPrometheus = [line]) as Hc
      by (unfold collectConnCount; by rewrite Hq).
    unfold connCountLoop. rewrite bind_cons, Hc. done.
Qed.

(** ** Idempotence *)

(** C8: running a collector twice over the same query results leaves the
    registry as one run leaves it, for the storage loop, the process-list
    half, the whole of [collectMetrics] and [collectConnCount]; the registry
    holds one entry per key. *)
Theorem collection_idempotent (db : DB) (cloudName originPrometheus : string)
    (rows : list Row) (r : Registry) :
  let storage := rows ≫= tableSizeRow cloudName originPrometheus in
  let processlist := collectProcesslist db cloudName originPrometheus in
  let metrics := collectMetrics db cloudName originPrometheus in
  let conns := collectConnCount db cloudName originPrometheus in
  exec storage (exec storage r) = exec storage r /\
  exec processlist (exec processlist r) = exec processlist r /\
  exec metrics (exec metrics r) = exec metrics r /\
  exec conns (exec conns r) = exec conns r /\
  render (exec (metrics ++ metrics) r) = render (exec metrics r) /\
  render (exec (conns ++ conns) r) = render (exec conns r) /\
  NoDup ((fun s => (sample_name s, sample_label_values s)) <$>
           render (exec (metrics ++ metrics) r)) /\
  NoDup ((fun s => (sample_name s, sample_label_values s)) <$>
           render (exec (conns ++ conns) r)).
Proof.
  intros. rewrite !exec_app, !exec_idempotent.
  repeat split; try done; apply render_series_NoDup.
Qed.

(** ** Persistence of registry entries *)

(** C9: a key no collector call has written is not listed; an entry that is
    present stays present through any later collector calls, listed with the
    value it then holds, which is the value written last, and its old value
    when no later call writes the key. *)
Theorem registry_never_forgets (ops : list Op) (r : Registry) (k : Key) :
  (k ∉ written (runOps ops) ->
     forall v, sample_of (k, v) ∉ render (exec (runOps ops) ∅)) /\
  (forall v, r !! k = Some v ->
     exists v', exec (runOps ops) r !! k = Some v' /\
                sample_of (k, v') ∈ render (exec (runOps ops) r)) /\
  (forall v, r !! k = Some v -> k ∉ written (runOps ops) ->
     exec (runOps ops) r !! k = Some v) /\
  (forall ops1 evs1 evs2 v,
     runOps ops1 = evs1 ++ EvSet k.1 k.2 v :: evs2 ->
     k ∉ written evs2 -> k ∉ written (runOps ops) ->
     exec (runOps (ops1 ++ ops)) r !! k = Some v).
Proof.
  repeat split.
  - intros Hk v (k' & v' & Hl & Heq)%elem_of_render.
    apply (inj sample_of) in Heq as [= <- <-].
    rewrite exec_unwritten in Hl by done. by rewrite lookup_empty in Hl.
  - intros v Hv. destruct (exec_keeps (runOps ops) r k) as [v' Hv']; [by eexists|].
    exists v'. split; [done|]. apply elem_of_render. by exists k, v'.
  - intros v Hv Hk. by rewrite exec_unwritten.
  - intros ops1 evs1 evs2 v Hops Hk2 Hk. unfold runOps. rewrite bind_app.
    fold (runOps ops1) (runOps ops). rewrite exec_app, exec_unwritten by done.
    rewrite Hops. destruct k as [g lvs]. by apply exec_last_write.
Qed.

(** ** Storage collection *)

Lemma scanTableRow_inr (row : Row) (r : TableRow) :
  scanTableRow row = inr r <->
  exists c0 c1 c2 c3 c4,
    row = [c0; c1; c2; c3; c4] /\
    convertString c0 = Some (dbName r) /\
    convertString c1 = Some (tableName r) /\
    scanNullInt64 c2 = Some (tableRowsVal r) /\
    scanNullFloat64 c3 = Some (dataSizeBytes r) /\
    scanNullFloat64 c4 = Some (indexSizeBytes r).
Proof.
  split.
  - destruct row as [|c0 [|c1 [|c2 [|c3 [|c4 [|??]]]]]]; try done.
    unfold scanTableRow. intros Hs. exists c0, c1, c2, c3, c4.
    destruct (convertString c0), (convertString c1), (scanNullInt64 c2),
      (scanNullFloat64 c3), (scanNullFloat64 c4); simplify_eq/=; done.
  - intros (c0 & c1 & c2 & c3 & c4 & -> & H0 & H1 & H2 & H3 & H4).
    unfold scanTableRow. rewrite H0, H1, H2, H3, H4. by destruct r.
Qed.

Lemma tableSizeRow_scanned (cloudName originPrometheus : string)
    (row : Row) (r : TableRow) :
  scanTableRow row = inr r ->
  tableSizeRow cloudName originPrometheus row =
  tableRowUpdates cloudName originPrometheus r.
Proof.
  intros Hs. unfold tableSizeRow, tableRowUpdates. rewrite Hs.
  by destruct (Valid (tableRowsVal r)).
Qed.

Lemma scanNull_nil {A} (zero : A) conv (n : Null A) :
  scanNull zero conv VNil = Some n -> Val n = zero /\ Valid n = false.
Proof. by intros [= <-]. Qed.

Lemma tableRowUpdates_accepted (cloudName originPrometheus : string)
    (r : TableRow) :
  ValidString cloudName = true -> ValidString originPrometheus = true ->
  ValidPair (dbName r, tableName r) ->
  Forall (fun e => accepted e = true)
    (tableRowUpdates cloudName originPrometheus r).
Proof.
  intros Hc Ho [Hd Ht].
  assert (forall g, validateLabelValues g
            [cloudName; dbName r; tableName r; originPrometheus] = true) as Hv
    by (intros g; by apply validateLabelValues_four).
  unfold tableRowUpdates. repeat constructor; simpl; apply Hv.
Qed.

(** C2: when every row of the storage result scans and the label values
    (target name, table_schema, table_name, origin label) are valid UTF-8,
    the storage loop performs, row after row, exactly three gauge writes --
    table size, index size, row count -- at the one label tuple (target name,
    table_schema, table_name, origin label), none of which panics, and
    writes 0 for the row count when the table_rows column is NULL. *)
Theorem storage_row_three_updates (db : DB) (cloudName originPrometheus : string)
    (rows : list Row) (trs : list TableRow) :
  db tableSizeQuery = QueryRows rows ->
  Forall2 (fun row r => scanTableRow row = inr r) rows trs ->
  ValidString cloudName = true -> ValidString originPrometheus = true ->
  Forall (fun r => ValidPair (dbName r, tableName r)) trs ->
  collectMetrics db cloudName originPrometheus =
    (trs ≫= tableRowUpdates cloudName originPrometheus) ++
    collectProcesslist db cloudName originPrometheus /\
  outcome (rows ≫= tableSizeRow cloudName originPrometheus) =
    Returned (trs ≫= tableRowUpdates cloudName originPrometheus) /\
  Forall2 (fun row r =>
    let lvs := [cloudName; dbName r; tableName r; originPrometheus] in
    tableSizeRow cloudName originPrometheus row =
      tableRowUpdates cloudName originPrometheus r /\
    outcome (tableSizeRow cloudName originPrometheus row) =
      Returned (tableRowUpdates cloudName originPrometheus r) /\
    length (tableSizeRow cloudName originPrometheus row) = 3%nat /\
    written (tableSizeRow cloudName originPrometheus row) =
      [(tableSize, lvs); (indexSize, lvs); (tableRows, lvs)] /\
    (exists schema name, row !! 0%nat = Some schema /\ row !! 1%nat = Some name /\
       convertString schema = Some (dbName r) /\
       convertString name = Some (tableName r)) /\
    (row !! 2%nat = Some VNil ->
       tableSizeRow cloudName originPrometheus row !! 2%nat =
         Some (EvSet tableRows lvs 0%float))) rows trs.
Proof.
  intros Hq Hrows Hc Ho Hvalid.
  assert (rows ≫= tableSizeRow cloudName originPrometheus =
          trs ≫= tableRowUpdates cloudName originPrometheus) as Hstorage.
  { clear Hq Hvalid. induction Hrows as [|row r rows trs Hs _ IH]; [done|].
    rewrite !bind_cons, IH. f_equal. by apply tableSizeRow_scanned. }
  split; [|split].
  - unfold collectMetrics. by rewrite Hq, Hstorage.
  - rewrite Hstorage. apply outcome_accepted, accepted_bind.
    eapply Forall_impl; [exact Hvalid|]. intros r Hr.
    by apply tableRowUpdates_accepted.
  - clear Hstorage Hq. induction Hrows as [|row r rows trs Hs _ IH];
      [constructor|].
    apply Forall_cons in Hvalid as [Hr Hvalid].
    constructor; [|by apply IH]. simpl.
    rewrite (tableSizeRow_scanned _ _ _ _ Hs).
    apply scanTableRow_inr in Hs as (c0 & c1 & c2 & c3 & c4 & -> & H0 & H1 & H2 & _).
    split; [done|]. split.
    { by apply outcome_accepted, tableRowUpdates_accepted. }
    repeat split; try done.
    + by exists c0, c1.
    + intros [= ->]. apply (scanNull_nil 0 convertInt64) in H2 as [_ Hv].
      unfold tableRowUpdates. simpl. by rewrite Hv.
Qed.

Lemma elem_of_written (evs : list Event) (k : Key) :
  k ∈ written evs <-> exists v, EvSet k.1 k.2 v ∈ evs.
Proof.
  unfold written, writes. rewrite list_elem_of_fmap. split.
  - intros [[k' v] [-> (e & He & Hw)%list_elem_of_omap]].
    exists v. by destruct e; simplify_eq/=.
  - intros [v He]. exists (k, v). split; [done|].
    apply list_elem_of_omap. eexists. split; [exact He|]. by destruct k.
Qed.

Lemma elem_of_exportProcesslist (cloudName originPrometheus : string)
    (m : UserDbCount) (e : Event) :
  e ∈ exportProcesslist cloudName originPrometheus m <->
  exists u dbCounts d n,
    m !! u = Some dbCounts /\ dbCounts !! d = Some n /\
    e = EvSet processListCount [cloudName; u; d; originPrometheus]
              (float64_of_int n).
Proof.
  unfold exportProcesslist. rewrite list_elem_of_bind. split.
  - intros [[u dbCounts] [(dn & Hd & Hin)%list_elem_of_bind Hu]].
    destruct dn as [d n]. apply list_elem_of_singleton in Hd.
    apply elem_of_map_to_list in Hu, Hin. by exists u, dbCounts, d, n.
  - intros (u & dbCounts & d & n & Hu & Hd & ->). exists (u, dbCounts).
    split; [|by apply elem_of_map_to_list].
    apply list_elem_of_bind. exists (d, n).
    split; [by apply list_elem_of_singleton|by apply elem_of_map_to_list].
Qed.

(** The process-list half writes to no vector but [processListCount]. *)
Lemma collectProcesslist_written (db : DB) (cloudName originPrometheus : string)
    (k : Key) :
  k ∈ written (collectProcesslist db cloudName originPrometheus) ->
  k.1 = processListCount.
Proof.
  intros [v Hv]%elem_of_written. unfold collectProcesslist in Hv.
  destruct (db showProcesslistQuery) as [msg|rows].
  - by apply list_elem_of_singleton in Hv.
  - apply elem_of_exportProcesslist in Hv as (? & ? & ? & ? & _ & _ & Hv).
    by injection Hv.
Qed.

(** The registry after a cycle whose storage result is the single row
    [row]. *)
Lemma collectMetrics_single_row (db : DB) (cloudName originPrometheus : string)
    (row : Row) (tr : TableRow) (r : Registry) :
  db tableSizeQuery = QueryRows [row] ->
  scanTableRow row = inr tr ->
  let lvs := [cloudName; dbName tr; tableName tr; originPrometheus] in
  let r' := exec (collectMetrics db cloudName originPrometheus) r in
  r' !! (tableSize, lvs) = Some (Val (dataSizeBytes tr)) /\
  r' !! (indexSize, lvs) = Some (Val (indexSizeBytes tr)) /\
  r' !! (tableRows, lvs) =
    Some (if Valid (tableRowsVal tr) then float64_of_int (Val (tableRowsVal tr))
          else 0%float).
Proof.
  intros Hq Hs lvs r'. subst r'. unfold collectMetrics. rewrite Hq.
  rewrite bind_cons, tableSizeRow_scanned with (r := tr) by done.
  change ([] ≫= tableSizeRow cloudName originPrometheus) with (@nil Event).
  rewrite (right_id_L [] (++)), exec_app.
  repeat split.
  all: rewrite exec_unwritten
    by (intros Hk%collectProcesslist_written; discriminate Hk).
  all: unfold tableRowUpdates; simpl; fold lvs.
  - rewrite !lookup_insert_ne by done. apply lookup_insert_eq.
  - rewrite lookup_insert_ne by done. apply lookup_insert_eq.
  - apply lookup_insert_eq.
Qed.

(** C10: a storage row whose data_length (or index_length) column is NULL
    scans like any other row and writes 0 to the table-size (index-size)
    gauge, next to the two other writes of the row; it is not skipped. *)
Theorem null_sizes_default_to_zero (db : DB) (cloudName originPrometheus : string)
    (c0 c1 c2 c : Value) (d t : string) (n : Null Z) (sz : Null float)
    (r : Registry) :
  convertString c0 = Some d ->
  convertString c1 = Some t ->
  scanNullInt64 c2 = Some n ->
  scanNullFloat64 c = Some sz ->
  let lvs := [cloudName; d; t; originPrometheus] in
  let rowsEv :=
    EvSet tableRows lvs
      (if Valid n then float64_of_int (Val n) else 0%float) in
  (tableSizeRow cloudName originPrometheus [c0; c1; c2; VNil; c] =
     [EvSet tableSize lvs 0%float; EvSet indexSize lvs (Val sz); rowsEv] /\
   (db tableSizeQuery = QueryRows [[c0; c1; c2; VNil; c]] ->
    exec (collectMetrics db cloudName originPrometheus) r !! (tableSize, lvs)
      = Some 0%float)) /\
  (tableSizeRow cloudName originPrometheus [c0; c1; c2; c; VNil] =
     [EvSet tableSize lvs (Val sz); EvSet indexSize lvs 0%float; rowsEv] /\
   (db tableSizeQuery = QueryRows [[c0; c1; c2; c; VNil]] ->
    exec (collectMetrics db cloudName originPrometheus) r !! (indexSize, lvs)
      = Some 0%float)) /\
  tableSizeRow cloudName originPrometheus [c0; c1; c2; VNil; VNil] =
    [EvSet tableSize lvs 0%float; EvSet indexSize lvs 0%float; rowsEv].
Proof.
  intros H0 H1 H2 H3 lvs rowsEv.
  assert (scanTableRow [c0; c1; c2; VNil; c] =
          inr {| dbName := d; tableName := t; tableRowsVal := n;
                 dataSizeBytes := mkNull 0%float false;
                 indexSizeBytes := sz |}) as Hd
    by (unfold scanTableRow; by rewrite H0, H1, H2, H3).
  assert (scanTableRow [c0; c1; c2; c; VNil] =
          inr {| dbName := d; tableName := t; tableRowsVal := n;
                 dataSizeBytes := sz;
                 indexSizeBytes := mkNull 0%float false |}) as Hi
    by (unfold scanTableRow; by rewrite H0, H1, H2, H3).
  assert (scanTableRow [c0; c1; c2; VNil; VNil] =
          inr {| dbName := d; tableName := t; tableRowsVal := n;
                 dataSizeBytes := mkNull 0%float false;
                 indexSizeBytes := mkNull 0%float false |}) as Hb
    by (unfold scanTableRow; by rewrite H0, H1, H2).
  repeat split.
  - by rewrite (tableSizeRow_scanned _ _ _ _ Hd).
  - intros Hq.
    by destruct (collectMetrics_single_row db cloudName originPrometheus
                   _ _ r Hq Hd) as (? & ? & ?).
  - by rewrite (tableSizeRow_scanned _ _ _ _ Hi).
  - intros Hq.
    by destruct (collectMetrics_single_row db cloudName originPrometheus
                   _ _ r Hq Hi) as (? & ? & ?).
  - by rewrite (tableSizeRow_scanned _ _ _ _ Hb).
Qed.

Lemma registry_contains_lookup (r : Registry) (g : GaugeVec)
    (lvs : list string) (v : float) :
  r !! (g, lvs) = Some v ->
  registry_contains r (fqName g) (zip (labelNames g) lvs) v.
Proof.
  intros Hl. exists (sample_of ((g, lvs), v)). split; [|done].
  apply elem_of_render. by exists (g, lvs), v.
Qed.

(** Every listed sample carries the name of one of the five vectors. *)
Lemma registry_contains_name (r : Registry) (name : string)
    (labels : list (string * string)) (v : float) :
  registry_contains r name labels v -> exists g, name = fqName g.
Proof.
  intros (s & (k & w & _ & ->)%elem_of_render & <- & _). by exists k.1.
Qed.

(** C1 (as the code has it): with one target named shard1 of origin prod and
    a storage result of the single row (app, users, 100, 2048, 512), the
    registry after the cycle contains the gauges mysql_table_size_bytes =
    2048, mysql_index_size_bytes = 512 and mysql_table_rows = 100, each with
    the labels cloud_name=shard1, database=app, table=users and
    origin_prometheus=prod. *)
Theorem shard1_scenario (db : DB) (row : Row) (r : Registry) :
  db tableSizeQuery = QueryRows [row] ->
  scanTableRow row =
    inr {| dbName := "app"; tableName := "users";
           tableRowsVal := mkNull 100 true;
           dataSizeBytes := mkNull 2048%float true;
           indexSizeBytes := mkNull 512%float true |} ->
  let r' := exec (collectMetrics db "shard1" "prod") r in
  let labels := [("cloud_name", "shard1"); ("database", "app");
                 ("table", "users"); ("origin_prometheus", "prod")] in
  registry_contains r' "mysql_table_size_bytes" labels 2048%float /\
  registry_contains r' "mysql_index_size_bytes" labels 512%float /\
  registry_contains r' "mysql_table_rows" labels 100%float.
Proof.
  intros Hq Hs r' labels.
  destruct (collectMetrics_single_row db "shard1" "prod" _ _ r Hq Hs)
    as (Ht & Hi & Hr).
  simpl in Ht, Hi, Hr.
  replace (float64_of_int 100) with 100%float in Hr
    by (vm_compute; reflexivity).
  split; [|split].
  - exact (registry_contains_lookup _ _ _ _ Ht).
  - exact (registry_contains_lookup _ _ _ _ Hi).
  - exact (registry_contains_lookup _ _ _ _ Hr).
Qed.

(** ** Connection-count collection *)









(** ** Process-list collection *)


(** What one iteration of the process-list loop does to the counters. *)
Lemma processlistRow_lookup2 (m : UserDbCount) (row : Row) (u d : string) :
  lookup2 (processlistRow m row) u d =
  match processGroup row with
  | Some g =>
      if decide (g = (u, d))
      then Some (wrap64 (default 0 (lookup2 m u d) + 1))
      else lookup2 m u d
  | None => lookup2 m u d
  end.
Proof.
  unfold processlistRow, processGroup.
  destruct (scanProcessRow row) as [p|]; simpl; [|done].
  set (u0 := orSentinel "UNKNOWN_USER" (user p)).
  set (d0 := orSentinel "UNKNOWN_DB" (db p)).
  unfold lookup2.
  destruct (decide (u = u0)) as [->|Hu].
  - rewrite lookup_insert_eq. simpl.
    destruct (decide (d = d0)) as [->|Hd].
    + rewrite decide_True by done. rewrite lookup_insert_eq.
      destruct (m !! u0) as [dbCounts|] eqn:Hm; simpl.
      * by rewrite Hm.
      * by rewrite lookup_insert_eq.
    + rewrite decide_False by congruence. rewrite lookup_insert_ne by done.
      destruct (m !! u0) as [dbCounts|] eqn:Hm; simpl.
      * by rewrite Hm.
      * by rewrite lookup_insert_eq.
  - rewrite decide_False by congruence. rewrite lookup_insert_ne by done.
    destruct (m !! u0) as [dbCounts|] eqn:Hm; simpl; [done|].
    by rewrite lookup_insert_ne.
Qed.







Lemma scanProcessRow8_length (row : Row) (p : ProcessRow) :
  scanProcessRow8 row = inr p -> length row = 8%nat.
Proof.
  by destruct row as [|? [|? [|? [|? [|? [|? [|? [|? [|??]]]]]]]]].
Qed.

Lemma scanProcessRow9_length (row : Row) (p : ProcessRow) :
  scanProcessRow9 row = inr p -> length row = 9%nat.
Proof.
  by destruct row as [|? [|? [|? [|? [|? [|? [|? [|? [|? [|??]]]]]]]]]].
Qed.

Lemma scanProcessRow8_arity (row : Row) :
  length row <> 8%nat -> scanProcessRow8 row = inl (ErrScanArity (length row) 8).
Proof.
  by destruct row as [|? [|? [|? [|? [|? [|? [|? [|? [|??]]]]]]]]].
Qed.

Lemma scanProcessRow9_arity (row : Row) :
  length row <> 9%nat -> scanProcessRow9 row = inl (ErrScanArity (length row) 9).
Proof.
  by destruct row as [|? [|? [|? [|? [|? [|? [|? [|? [|? [|??]]]]]]]]]].
Qed.

(** The export of the counters of a single group. *)
Lemma exportProcesslist_single (cloudName originPrometheus u d : string)
    (n : Z) :
  exportProcesslist cloudName originPrometheus {[u := {[d := n]}]} =
  [EvSet processListCount [cloudName; u; d; originPrometheus]
         (float64_of_int n)].
Proof.
  unfold exportProcesslist. rewrite map_to_list_singleton. simpl.
  by rewrite map_to_list_singleton.
Qed.

Lemma scanNullString_eq (c : Value) :
  scanNullString c =
  Some (match c with
        | VNil => mkNull "" false
        | _ => mkNull (asString c) true
        end).
Proof. by destruct c. Qed.

Lemma orSentinel_scanned (sentinel : string) (c : Value) :
  orSentinel sentinel (match c with
                       | VNil => mkNull "" false
                       | _ => mkNull (asString c) true
                       end) = labelOf sentinel c.
Proof. by destruct c. Qed.

(** What the two scans make of a row of 8 and of 9 columns whose Id
    converts. *)
Lemma scanProcessRow8_columns (c0 c1 c2 c3 c4 c5 c6 c7 : Value) (n : Z) :
  convertInt c0 = Some n ->
  exists p, scanProcessRow8 [c0; c1; c2; c3; c4; c5; c6; c7] = inr p /\
    orSentinel "UNKNOWN_USER" (user p) = labelOf "UNKNOWN_USER" c1 /\
    orSentinel "UNKNOWN_DB" (db p) = labelOf "UNKNOWN_DB" c3.
Proof.
  intros Hn. unfold scanProcessRow8. rewrite Hn, !scanNullString_eq. simpl.
  eexists. split; [done|]. simpl. by rewrite !orSentinel_scanned.
Qed.

Lemma scanProcessRow9_columns (c0 c1 c2 c3 c4 c5 c6 c7 c8 : Value) (n : Z) :
  convertInt c0 = Some n ->
  exists p, scanProcessRow9 [c0; c1; c2; c3; c4; c5; c6; c7; c8] = inr p /\
    orSentinel "UNKNOWN_USER" (user p) = labelOf "UNKNOWN_USER" c1 /\
    orSentinel "UNKNOWN_DB" (db p) = labelOf "UNKNOWN_DB" c3.
Proof.
  intros Hn. unfold scanProcessRow9. rewrite Hn, !scanNullString_eq. simpl.
  eexists. split; [done|]. simpl. by rewrite !orSentinel_scanned.
Qed.

(** C5: each process-list row is offered to the 8-destination scan first and,
    when that returns an error, to the 9-destination scan; a 9-column row
    fails the first scan on the column count and, when its Id converts, is
    taken by the second and adds one to the counter of its group; a row both
    scans reject leaves the counters as they are; a row of 8 columns whose Id
    converts is accepted by the 8-destination scan; a row the 8-destination
    scan accepts is rejected by the 9-destination scan and adds one to the
    counter of its group, and to no other counter. *)
Theorem processlist_scan_fallback (handle : DB) (cloudName originPrometheus : string)
    (m : UserDbCount) (row : Row) :
  (forall p, scanProcessRow8 row = inr p -> scanProcessRow row = Some p) /\
  (forall e, scanProcessRow8 row = inl e ->
     scanProcessRow row =
       match scanProcessRow9 row with inr p => Some p | inl _ => None end) /\
  (forall p, scanProcessRow9 row = inr p ->
     scanProcessRow8 row = inl (ErrScanArity 9 8) /\
     scanProcessRow row = Some p) /\
  (forall e8 e9,
     scanProcessRow8 row = inl e8 -> scanProcessRow9 row = inl e9 ->
     scanProcessRow row = None /\
     processlistRow m row = m /\
     forall pre post,
       foldl processlistRow ∅ (pre ++ row :: post) =
       foldl processlistRow ∅ (pre ++ post)) /\
  (forall p, scanProcessRow8 row = inr p ->
     let u := orSentinel "UNKNOWN_USER" (user p) in
     let d := orSentinel "UNKNOWN_DB" (db p) in
     length row = 8%nat /\
     scanProcessRow9 row = inl (ErrScanArity 8 9) /\
     lookup2 (processlistRow m row) u d =
       Some (wrap64 (default 0 (lookup2 m u d) + 1)) /\
     (forall u' d', (u', d') <> (u, d) ->
        lookup2 (processlistRow m row) u' d' = lookup2 m u' d') /\
     (handle showProcesslistQuery = QueryRows [row] ->
      collectProcesslist handle cloudName originPrometheus =
        [EvSet processListCount [cloudName; u; d; originPrometheus]
               1%float])) /\
  (forall c0 c1 c2 c3 c4 c5 c6 c7 c8 n,
     row = [c0; c1; c2; c3; c4; c5; c6; c7; c8] -> convertInt c0 = Some n ->
     let u := labelOf "UNKNOWN_USER" c1 in
     let d := labelOf "UNKNOWN_DB" c3 in
     scanProcessRow8 row = inl (ErrScanArity 9 8) /\
     (exists p, scanProcessRow9 row = inr p /\ scanProcessRow row = Some p /\
                progress p = default (mkNull "" false) (scanNullString c8)) /\
     processGroup row = Some (u, d) /\
     lookup2 (processlistRow m row) u d =
       Some (wrap64 (default 0 (lookup2 m u d) + 1)) /\
     (forall u' d', (u', d') <> (u, d) ->
        lookup2 (processlistRow m row) u' d' = lookup2 m u' d')) /\
  (forall c0 c1 c2 c3 c4 c5 c6 c7 n,
     row = [c0; c1; c2; c3; c4; c5; c6; c7] -> convertInt c0 = Some n ->
     let u := labelOf "UNKNOWN_USER" c1 in
     let d := labelOf "UNKNOWN_DB" c3 in
     (exists p, scanProcessRow8 row = inr p /\ scanProcessRow row = Some p) /\
     processGroup row = Some (u, d) /\
     lookup2 (processlistRow m row) u d =
       Some (wrap64 (default 0 (lookup2 m u d) + 1))).
Proof.
  split; [|split; [|split; [|split; [|split; [|split]]]]].
  - intros p H8. unfold scanProcessRow. by rewrite H8.
  - intros e H8. unfold scanProcessRow. by rewrite H8.
  - intros p H9. pose proof (scanProcessRow9_length _ _ H9) as Hlen.
    assert (scanProcessRow8 row = inl (ErrScanArity 9 8)) as H8.
    { rewrite scanProcessRow8_arity by lia. by rewrite Hlen. }
    split; [done|]. unfold scanProcessRow. by rewrite H8, H9.
  - intros e8 e9 H8 H9.
    assert (scanProcessRow row = None) as Hs
      by (unfold scanProcessRow; by rewrite H8, H9).
    assert (forall m', processlistRow m' row = m') as Hm
      by (intros m'; unfold processlistRow; by rewrite Hs).
    repeat split; [done|done|].
    intros pre post. rewrite !foldl_app. simpl. by rewrite Hm.
  - intros p H8 u d. pose proof (scanProcessRow8_length _ _ H8) as Hlen.
    assert (processGroup row = Some (u, d)) as Hg.
    { unfold processGroup, scanProcessRow. by rewrite H8. }
    split; [done|]. split.
    { rewrite scanProcessRow9_arity by lia. by rewrite Hlen. }
    split; [|split].
    + rewrite processlistRow_lookup2, Hg. by rewrite decide_True.
    + intros u' d' Hne. rewrite processlistRow_lookup2, Hg.
      by rewrite decide_False.
    + intros Hq. unfold collectProcesslist. rewrite Hq. simpl.
      unfold processlistRow, scanProcessRow. rewrite H8. fold u d.
      rewrite lookup_empty, lookup_insert_eq. simpl.
      rewrite lookup_empty, insert_insert_eq. simpl.
      change (<[u:=<[d:=wrap64 (0 + 1)]> ∅]> ∅)
        with ({[u := {[d := 1]}]} : UserDbCount).
      rewrite exportProcesslist_single. do 2 f_equal.
  - intros c0 c1 c2 c3 c4 c5 c6 c7 c8 n -> Hn u d.
    assert (scanProcessRow8 [c0; c1; c2; c3; c4; c5; c6; c7; c8] =
              inl (ErrScanArity 9 8)) as H8 by done.
    destruct (scanProcessRow9_columns c0 c1 c2 c3 c4 c5 c6 c7 c8 n Hn)
      as (p & H9 & Hu & Hd).
    assert (scanProcessRow [c0; c1; c2; c3; c4; c5; c6; c7; c8] = Some p)
      as Hs by (unfold scanProcessRow; by rewrite H8, H9).
    assert (processGroup [c0; c1; c2; c3; c4; c5; c6; c7; c8] = Some (u, d))
      as Hg by (unfold processGroup; rewrite Hs; simpl; by rewrite Hu, Hd).
    split; [done|]. split; [|split; [done|split]].
    + exists p. split; [done|]. split; [done|].
      unfold scanProcessRow9 in H9.
      rewrite Hn, !scanNullString_eq in H9. simpl in H9.
      injection H9 as <-. simpl. by rewrite scanNullString_eq.
    + rewrite processlistRow_lookup2, Hg. by rewrite decide_True.
    + intros u' d' Hne. rewrite processlistRow_lookup2, Hg.
      by rewrite decide_False.
  - intros c0 c1 c2 c3 c4 c5 c6 c7 n -> Hn u d.
    destruct (scanProcessRow8_columns c0 c1 c2 c3 c4 c5 c6 c7 n Hn)
      as (p & H8 & Hu & Hd).
    assert (scanProcessRow [c0; c1; c2; c3; c4; c5; c6; c7] = Some p)
      as Hs by (unfold scanProcessRow; by rewrite H8).
    assert (processGroup [c0; c1; c2; c3; c4; c5; c6; c7] = Some (u, d))
      as Hg by (unfold processGroup; rewrite Hs; simpl; by rewrite Hu, Hd).
    split; [by exists p|]. split; [done|].
    rewrite processlistRow_lookup2, Hg. by rewrite decide_True.
Qed.

Lemma elem_of_exportProcesslist_lookup2 (cloudName originPrometheus : string)
    (m : UserDbCount) (e : Event) :
  e ∈ exportProcesslist cloudName originPrometheus m <->
  exists u d n,
    lookup2 m u d = Some n /\
    e = EvSet processListCount [cloudName; u; d; originPrometheus]
              (float64_of_int n).
Proof.
  rewrite elem_of_exportProcesslist. unfold lookup2. split.
  - intros (u & dbCounts & d & n & Hu & Hd & ->). exists u, d, n.
    by rewrite Hu.
  - intros (u & d & n & Hl & ->).
    destruct (m !! u) as [dbCounts|] eqn:Hu; [|done].
    by exists u, dbCounts, d, n.
Qed.








(** ** Start-up *)

Lemma step_exit (sqlOpen : string -> bool) (p p' : Process) :
  step sqlOpen p p' -> exit p = None /\ (exit p' = None \/ exit p' = Some 1).
Proof. intros Hstep. destruct Hstep; simpl; auto. Qed.


(** A polling loop runs only for a target whose open succeeded. *)
Lemma reachable_pollers (sqlOpen : string -> bool) (databases : list dbConfig)
    (p : Process) :
  reachable sqlOpen databases p ->
  forall c, GMetrics c ∈ goroutines p \/ GConnCount c ∈ goroutines p ->
            sqlOpen (DSN c +:+ "?timeout=30s") = true.
Proof.
  intros Hr. induction Hr as [|p p' _ IH Hstep].
  - intros c [Hc|Hc]; by apply elem_of_nil in Hc.
  - destruct Hstep as [p c' todo|p|p|p|p|p i c'|p i c' He Hi Ho|p i c' db'
                      |p i c' db'];
      simpl; try exact IH.
    + intros c [Hc|Hc]; apply elem_of_app in Hc as [Hc|Hc];
        try (apply IH; by auto);
        apply list_elem_of_singleton in Hc; discriminate Hc.
    + intros c Hc.
      assert (forall g, g ∈ <[i:=GMetrics c']> (goroutines p) ++ [GConnCount c'] ->
                g = GMetrics c' \/ g = GConnCount c' \/ g ∈ goroutines p) as Hin.
      { intros g [Hg|Hg]%elem_of_app.
        - apply list_elem_of_lookup in Hg as [j Hj].
          destruct (decide (i = j)) as [<-|Hne].
          + rewrite list_lookup_insert_eq in Hj
              by (by eapply lookup_lt_Some). left. congruence.
          + rewrite list_lookup_insert_ne in Hj by done.
            right; right. by eapply list_elem_of_lookup_2.
        - apply list_elem_of_singleton in Hg. auto. }
      destruct Hc as [Hc|Hc]; apply Hin in Hc as [Hc|[Hc|Hc]];
        simplify_eq; try done; apply IH; auto.
Qed.




End Properties.

(** * The theorems at the worked inputs *)

(** The shard1 scenario with the names the specification uses: the registry
    after the cycle lists the three gauges of the row under the names and
    with the labels the code registers, hence no sample named
    table_size_bytes and no label named origin. *)
Lemma shard1_scenario_spec_names :
  let r := exec (@collectMetrics decimalStrconv users_db "shard1" "prod") ∅ in
  let names := ["cloud_name"; "database"; "table"; "origin_prometheus"] in
  let values := ["shard1"; "app"; "users"; "prod"] in
  let labels := [("cloud_name", "shard1"); ("database", "app");
                 ("table", "users"); ("origin", "prod")] in
  render r ≡ₚ
    [ {| sample_name := "mysql_table_size_bytes"; sample_label_names := names;
         sample_label_values := values; sample_value := 2048%float |};
      {| sample_name := "mysql_index_size_bytes"; sample_label_names := names;
         sample_label_values := values; sample_value := 512%float |};
      {| sample_name := "mysql_table_rows"; sample_label_names := names;
         sample_label_values := values; sample_value := 100%float |} ] /\
  ~ (registry_contains r "table_size_bytes" labels 2048%float /\
     registry_contains r "index_size_bytes" labels 512%float /\
     registry_contains r "table_rows" labels 100%float).
Proof.
  split.
  - vm_compute. apply Permutation_cons_append.
  - intros [(g & Hg)%registry_contains_name _]. by destruct g.
Qed.

Lemma shard1_scenario_witness :
  shard1_db tableSizeQuery = QueryRows [users_row] /\
  (let r := exec (@collectMetrics decimalStrconv shard1_db "shard1" "prod") ∅ in
   let labels := [("cloud_name", "shard1"); ("database", "app");
                  ("table", "users"); ("origin_prometheus", "prod")] in
   registry_contains r "mysql_table_size_bytes" labels 2048%float /\
   registry_contains r "mysql_index_size_bytes" labels 512%float /\
   registry_contains r "mysql_table_rows" labels 100%float).
Proof.
  split.
  - vm_compute. reflexivity.
  - apply (@shard1_scenario decimalStrconv shard1_db users_row ∅).
    + vm_compute. reflexivity.
    + vm_compute. reflexivity.
Defined.

(** A storage result of a table and a view: six writes, the view's all 0. *)
Lemma storage_row_three_updates_witness :
  views_db tableSizeQuery = QueryRows [users_row; view_row] /\
  @collectMetrics decimalStrconv views_db "shard1" "prod" =
    [EvSet tableSize ["shard1"; "app"; "users"; "prod"] 2048%float;
     EvSet indexSize ["shard1"; "app"; "users"; "prod"] 512%float;
     EvSet tableRows ["shard1"; "app"; "users"; "prod"] 100%float;
     EvSet tableSize ["shard1"; "app"; "active_users"; "prod"] 0%float;
     EvSet indexSize ["shard1"; "app"; "active_users"; "prod"] 0%float;
     EvSet tableRows ["shard1"; "app"; "active_users"; "prod"] 0%float].
Proof.
  split; [vm_compute; reflexivity|].
  destruct (@storage_row_three_updates decimalStrconv views_db "shard1" "prod"
              [users_row; view_row]
              [ {| dbName := "app"; tableName := "users";
                   tableRowsVal := mkNull 100 true;
                   dataSizeBytes := mkNull 2048%float true;
                   indexSizeBytes := mkNull 512%float true |};
                {| dbName := "app"; tableName := "active_users";
                   tableRowsVal := mkNull 0 false;
                   dataSizeBytes := mkNull 0%float false;
                   indexSizeBytes := mkNull 0%float false |} ])
    as [Hevs _].
  - vm_compute. reflexivity.
  - repeat constructor; vm_compute; reflexivity.
  - reflexivity.
  - reflexivity.
  - repeat constructor.
  - rewrite Hevs. vm_compute. reflexivity.
Defined.

(** The view row, with both sizes NULL and with the data size alone NULL. *)
Lemma null_sizes_default_to_zero_witness :
  @tableSizeRow decimalStrconv "shard1" "prod"
     [VBytes "app"; VBytes "active_users"; VNil; VNil; VBytes "512"] =
    [EvSet tableSize ["shard1"; "app"; "active_users"; "prod"] 0%float;
     EvSet indexSize ["shard1"; "app"; "active_users"; "prod"] 512%float;
     EvSet tableRows ["shard1"; "app"; "active_users"; "prod"] 0%float] /\
  @tableSizeRow decimalStrconv "shard1" "prod" view_row =
    [EvSet tableSize ["shard1"; "app"; "active_users"; "prod"] 0%float;
     EvSet indexSize ["shard1"; "app"; "active_users"; "prod"] 0%float;
     EvSet tableRows ["shard1"; "app"; "active_users"; "prod"] 0%float].
Proof.
  destruct (@null_sizes_default_to_zero decimalStrconv views_db "shard1" "prod"
              (VBytes "app") (VBytes "active_users") VNil (VBytes "512")
              "app" "active_users" (mkNull 0 false) (mkNull 512%float true) ∅)
    as ([Hdata _] & _ & Hboth).
  - reflexivity.
  - reflexivity.
  - reflexivity.
  - vm_compute. reflexivity.
  - split; [exact Hdata|exact Hboth].
Defined.



(** C6 fails for a user that is not valid UTF-8: the row of josé in Latin-1
    scans and is counted in the group (josé, app), and the export panics at
    that group, with no write. *)
Lemma invalid_user_panics :
  let evs := @collectProcesslist decimalStrconv latin1_db "shard1" "prod" in
  latin1_db showProcesslistQuery = QueryRows [latin1_process_row] /\
  @processGroups decimalStrconv [latin1_process_row] = [(latin1_jose, "app")] /\
  ValidString latin1_jose = false /\
  evs = [EvSet processListCount ["shard1"; latin1_jose; "app"; "prod"] 1%float] /\
  outcome evs =
    Panicked [] processListCount ["shard1"; latin1_jose; "app"; "prod"] /\
  writes (performed (outcome evs)) = [].
Proof. vm_compute. done. Qed.

(** C7 fails for a user that is not valid UTF-8: the row of josé in Latin-1
    scans, and the write of its count panics. *)
Lemma invalid_conn_user_panics :
  let evs := @collectConnCount decimalStrconv latin1_db "shard1" "prod" in
  latin1_db connCountQuery = QueryRows [latin1_conn_row] /\
  @scanConnRow decimalStrconv latin1_conn_row =
    inr (mkNull "app" true, mkNull latin1_jose true, 1) /\
  ValidString latin1_jose = false /\
  outcome evs = Panicked [] connCount ["shard1"; latin1_jose; "app"; "prod"] /\
  writes (performed (outcome evs)) = [].
Proof. vm_compute. done. Qed.



(** A server that refuses the connection, in the cycle before one that
    answers. *)
Lemma query_failure_skips_cycle_witness :
  let refused :=
    ErrQuery "dial tcp 10.0.0.5:3306: connect: connection refused" in
  let r : Registry :=
    {[ (tableSize, ["shard1"; "app"; "users"; "prod"]) := 2048%float ]} in
  exec (@collectMetrics decimalStrconv down_db "shard1" "prod") r = r /\
  exec (@collectConnCount decimalStrconv down_db "shard1" "prod") r = r /\
  @metricsLoop decimalStrconv [down_db; users_db] "shard1" "prod" =
    EvLog "database %s: Error executing table size query: %v" "shard1" refused
    :: @metricsLoop decimalStrconv [users_db] "shard1" "prod" /\
  @connCountLoop decimalStrconv [down_db; shard1_db] "shard1" "prod" =
    EvLog "database %s: Error executing connection count query: %v" "shard1"
          refused
    :: @connCountLoop decimalStrconv [shard1_db] "shard1" "prod".
Proof.
  intros refused r.
  destruct (@query_failure_skips_cycle decimalStrconv down_db "shard1" "prod"
              "dial tcp 10.0.0.5:3306: connect: connection refused" r
              [users_db]) as [Hm _].
  destruct (@query_failure_skips_cycle decimalStrconv down_db "shard1" "prod"
              "dial tcp 10.0.0.5:3306: connect: connection refused" r
              [shard1_db]) as [_ Hc].
  destruct (Hm eq_refl) as (_ & _ & Hm1 & Hm2).
  destruct (Hc eq_refl) as (_ & _ & Hc1 & Hc2).
  split; [exact Hm1|]. split; [exact Hc1|]. split; [exact Hm2|exact Hc2].
Defined.

(** Three rows of the worked process list: the row of 8 columns is counted
    once, the row of 9 columns fails the first scan, is taken by the second
    and is counted once more in the same group, the row of 4 columns is not
    counted. *)
Lemma processlist_scan_fallback_witness :
  let row8 := [VInt64 1; VBytes "root"; VBytes "10.0.0.9:51000"; VNil;
               VBytes "Query"; VInt64 0; VNil; VBytes "SHOW PROCESSLIST"] in
  let row9 := [VInt64 2; VBytes "root"; VBytes "10.0.0.9:51002"; VNil;
               VBytes "Sleep"; VInt64 7; VNil; VNil; VBytes "0.000"] in
  let row4 := [VInt64 4; VNil; VBytes "10.0.0.9:51006"; VBytes "app"] in
  let counted : UserDbCount := {[ "root" := {[ "UNKNOWN_DB" := 1 ]} ]} in
  @lookup2 (@processlistRow decimalStrconv ∅ row8) "root" "UNKNOWN_DB" = Some 1 /\
  @scanProcessRow8 decimalStrconv row9 = inl (ErrScanArity 9 8) /\
  (exists p, @scanProcessRow decimalStrconv row9 = Some p /\
             progress p = mkNull "0.000" true) /\
  @lookup2 (@processlistRow decimalStrconv counted row9) "root" "UNKNOWN_DB" =
    Some 2 /\
  @processlistRow decimalStrconv counted row4 = counted.
Proof.
  intros row8 row9 row4 counted. split; [|split; [|split; [|split]]].
  - destruct (@processlist_scan_fallback decimalStrconv empty_db "shard1" "prod"
                ∅ row8) as (_ & _ & _ & _ & H8 & _).
    destruct (H8 {| id := 1; user := mkNull "root" true;
                    host := mkNull "10.0.0.9:51000" true;
                    db := mkNull "" false; command := mkNull "Query" true;
                    time := VInt64 0; state := mkNull "" false;
                    info := mkNull "SHOW PROCESSLIST" true;
                    progress := mkNull "" false |} eq_refl)
      as (_ & _ & Hcount & _).
    exact Hcount.
  - destruct (@processlist_scan_fallback decimalStrconv empty_db "shard1" "prod"
                counted row9) as (_ & _ & _ & _ & _ & H9 & _).
    destruct (H9 _ _ _ _ _ _ _ _ _ 2 eq_refl eq_refl) as (Hfirst & _).
    exact Hfirst.
  - destruct (@processlist_scan_fallback decimalStrconv empty_db "shard1" "prod"
                counted row9) as (_ & _ & _ & _ & _ & H9 & _).
    destruct (H9 _ _ _ _ _ _ _ _ _ 2 eq_refl eq_refl)
      as (_ & (p & _ & Hs & Hp) & _).
    exists p. split; [exact Hs|exact Hp].
  - destruct (@processlist_scan_fallback decimalStrconv empty_db "shard1" "prod"
                counted row9) as (_ & _ & _ & _ & _ & H9 & _).
    destruct (H9 _ _ _ _ _ _ _ _ _ 2 eq_refl eq_refl)
      as (_ & _ & _ & Hcount & _).
    exact Hcount.
  - destruct (@processlist_scan_fallback decimalStrconv empty_db "shard1" "prod"
                counted row4) as (_ & _ & _ & Hskip & _).
    destruct (Hskip (ErrScanArity 4 8) (ErrScanArity 4 9) eq_refl eq_refl)
      as (_ & Hm & _).
    exact Hm.
Defined.

(** A table that was collected once and then dropped: its three gauges
    are still listed, with the values of the one cycle that saw it, and a key
    that was never written is not. *)
Lemma registry_never_forgets_witness :
  let first := [CollectMetrics users_db "shard1" "prod"] in
  let later := [CollectMetrics empty_db "shard1" "prod";
                CollectConnCount empty_db "shard1" "prod";
                CollectMetrics down_db "shard1" "prod"] in
  let k : Key := (tableSize, ["shard1"; "app"; "users"; "prod"]) in
  let r := exec (@runOps decimalStrconv first) ∅ in
  exec (@runOps decimalStrconv later) r !! k = Some 2048%float /\
  sample_of ((tableSize, ["shard1"; "app"; "orders"; "prod"]), 2048%float)
    ∉ render (exec (@runOps decimalStrconv (first ++ later)) ∅).
Proof.
  intros first later k r. split.
  - destruct (@registry_never_forgets decimalStrconv later r k)
      as (_ & _ & Hkeep & _).
    apply Hkeep.
    + vm_compute. reflexivity.
    + vm_compute. apply not_elem_of_nil.
  - destruct (@registry_never_forgets decimalStrconv (first ++ later) ∅
                (tableSize, ["shard1"; "app"; "orders"; "prod"]))
      as (Hnever & _).
    apply Hnever. vm_compute.
    intros Hin. repeat (apply elem_of_cons in Hin as [Hin|Hin]; [discriminate Hin|]).
    by apply elem_of_nil in Hin.
Defined.

(** * Further properties of the collectors *)

Ltac in_list :=
  repeat first [apply list_elem_of_here | apply list_elem_of_further].

Section Collectors.

Context `{!Strconv}.

(** ** Which keys a collector writes *)

Lemma tableSizeRow_owned (cloudName originPrometheus : string) (row : Row)
    (g : GaugeVec) (lvs : list string) (v : float) :
  EvSet g lvs v ∈ tableSizeRow cloudName originPrometheus row ->
  g ∈ [tableSize; indexSize; tableRows] /\
  exists x y, lvs = [cloudName; x; y; originPrometheus].
Proof.
  unfold tableSizeRow. destruct (scanTableRow row) as [err|r].
  - by intros ?%list_elem_of_singleton.
  - intros Hin. repeat (apply elem_of_cons in Hin as [Hin|Hin]).
    + injection Hin as -> -> _. split; [in_list|by eauto].
    + injection Hin as -> -> _. split; [in_list|by eauto].
    + destruct (Valid (tableRowsVal r)); injection Hin as -> -> _;
        (split; [in_list|by eauto]).
    + by apply elem_of_nil in Hin.
Qed.

Lemma collectMetrics_owned (db : DB) (cloudName originPrometheus : string)
    (k : Key) :
  k ∈ written (collectMetrics db cloudName originPrometheus) ->
  k.1 ∈ [tableSize; indexSize; tableRows; processListCount] /\
  exists x y, k.2 = [cloudName; x; y; originPrometheus].
Proof.
  intros [v Hv]%elem_of_written. unfold collectMetrics in Hv.
  destruct (db tableSizeQuery) as [msg|rows].
  { by apply list_elem_of_singleton in Hv. }
  apply elem_of_app in Hv as [Hv|Hv].
  - apply list_elem_of_bind in Hv as (row & Hv & _).
    apply tableSizeRow_owned in Hv as [Hg Hl]. split; [|done].
    repeat (apply elem_of_cons in Hg as [->|Hg]); try in_list.
    by apply elem_of_nil in Hg.
  - unfold collectProcesslist in Hv.
    destruct (db showProcesslistQuery) as [msg|prows].
    { by apply list_elem_of_singleton in Hv. }
    apply elem_of_exportProcesslist in Hv as (u & ? & d & n & _ & _ & Hv).
    injection Hv as -> -> _. split; [in_list|by eauto].
Qed.

Lemma collectConnCount_owned (db : DB) (cloudName originPrometheus : string)
    (k : Key) :
  k ∈ written (collectConnCount db cloudName originPrometheus) ->
  k.1 = connCount /\ exists x y, k.2 = [cloudName; x; y; originPrometheus].
Proof.
  intros [v Hv]%elem_of_written. unfold collectConnCount in Hv.
  destruct (db connCountQuery) as [msg|rows].
  { by apply list_elem_of_singleton in Hv. }
  apply list_elem_of_bind in Hv as (row & Hv & _). unfold connCountRow in Hv.
  destruct (scanConnRow row) as [err|[[dbName userName] count]];
    apply list_elem_of_singleton in Hv; [done|].
  injection Hv as -> -> _. by eauto.
Qed.

Lemma elem_of_writes_written (evs : list Event) (k : Key) (v : float) :
  (k, v) ∈ writes evs -> k ∈ written evs.
Proof. intros Hin. unfold written. by apply (list_elem_of_fmap_2 fst) in Hin. Qed.

(** X1: every sample a collector writes carries four labels: cloud_name, the
    name of the target the collector was called for, origin_prometheus, its
    origin label, and between them database and table for the three storage
    gauges, user and db for the process-list and connection-count gauges.
    [collectMetrics] never writes the connection-count gauge and
    [collectConnCount] writes no other. *)
Theorem collector_samples_labelled (db : DB) (cloudName originPrometheus : string)
    (k : Key) (v : float) :
  ((k, v) ∈ writes (collectMetrics db cloudName originPrometheus) ->
     exists x y,
       (k.1 ∈ [tableSize; indexSize; tableRows] /\
        sample_labels (sample_of (k, v)) =
          [("cloud_name", cloudName); ("database", x); ("table", y);
           ("origin_prometheus", originPrometheus)]) \/
       (k.1 = processListCount /\
        sample_labels (sample_of (k, v)) =
          [("cloud_name", cloudName); ("user", x); ("db", y);
           ("origin_prometheus", originPrometheus)])) /\
  ((k, v) ∈ writes (collectConnCount db cloudName originPrometheus) ->
     exists x y,
       k.1 = connCount /\
       sample_labels (sample_of (k, v)) =
         [("cloud_name", cloudName); ("user", x); ("db", y);
          ("origin_prometheus", originPrometheus)]).
Proof.
  destruct k as [g lvs]. split; intros Hin%elem_of_writes_written.
  - apply collectMetrics_owned in Hin as [Hg (x & y & Hl)].
    simpl in Hg, Hl. subst lvs. exists x, y.
    repeat (apply elem_of_cons in Hg as [->|Hg]).
    + left. split; [in_list|done].
    + left. split; [in_list|done].
    + left. split; [in_list|done].
    + by right.
    + by apply elem_of_nil in Hg.
  - apply collectConnCount_owned in Hin as [Hg (x & y & Hl)].
    simpl in Hg, Hl. subst. by exists x, y.
Qed.

(** ** Order of effects *)

Lemma elem_of_writes (evs : list Event) (k : Key) (v : float) :
  (k, v) ∈ writes evs <-> EvSet k.1 k.2 v ∈ evs.
Proof.
  unfold writes. rewrite list_elem_of_omap. split.
  - intros (e & He & Hw). by destruct e; simplify_eq/=.
  - intros He. eexists. split; [exact He|]. by destruct k.
Qed.

Lemma list_to_map_lookup_elem (l : list (Key * float)) (k : Key) (v : float) :
  (k, v) ∈ l -> exists v', (list_to_map l : Registry) !! k = Some v' /\ (k, v') ∈ l.
Proof.
  intros Hin. destruct ((list_to_map l : Registry) !! k) as [v'|] eqn:Hl.
  - exists v'. split; [done|]. by apply elem_of_list_to_map_2.
  - apply not_elem_of_list_to_map_2 in Hl. destruct Hl.
    by apply (list_elem_of_fmap_2 fst) in Hin.
Qed.

(** When the writes of a sequence agree on the value of each key, the
    registry it leaves is that of any reordering of it. *)
Lemma exec_Permutation (evs evs' : list Event) (r : Registry) :
  (forall k v1 v2, (k, v1) ∈ writes evs -> (k, v2) ∈ writes evs -> v1 = v2) ->
  evs ≡ₚ evs' -> exec evs r = exec evs' r.
Proof.
  intros Hfun Hperm.
  assert (writes evs ≡ₚ writes evs') as Hw by (unfold writes; by rewrite Hperm).
  apply map_eq. intros k. rewrite !exec_union, !lookup_union.
  f_equal.
  destruct ((list_to_map (reverse (writes evs)) : Registry) !! k)
    as [v|] eqn:Hl.
  - apply elem_of_list_to_map_2 in Hl. rewrite elem_of_reverse in Hl.
    assert ((k, v) ∈ reverse (writes evs')) as Hin'
      by (by rewrite elem_of_reverse, <- Hw).
    apply list_to_map_lookup_elem in Hin' as (v' & -> & Hin').
    rewrite elem_of_reverse, <- Hw in Hin'. f_equal. by eapply Hfun.
  - symmetry. apply not_elem_of_list_to_map_1.
    apply not_elem_of_list_to_map_2 in Hl.
    by rewrite fmap_reverse, elem_of_reverse, <- Hw,
      <- elem_of_reverse, <- fmap_reverse.
Qed.

(** Two sequences that write no common key can be swapped. *)
Lemma exec_comm (evs1 evs2 : list Event) (r : Registry) :
  (forall k, k ∈ written evs1 -> k ∉ written evs2) ->
  exec (evs1 ++ evs2) r = exec (evs2 ++ evs1) r.
Proof.
  intros Hdisj. rewrite !exec_app, !exec_union, !(assoc_L (∪)). f_equal.
  apply map_union_comm, map_disjoint_spec. intros k v2 v1 H2 H1.
  apply elem_of_list_to_map_2 in H1, H2. rewrite elem_of_reverse in H1, H2.
  apply elem_of_writes_written in H1, H2. by apply (Hdisj k).
Qed.

(** X2: two collector calls for different targets (another name or another
    origin label), and the two collectors of one target, write no common
    key: the registry after both does not depend on which of them ran first,
    so the unsynchronised pollers cannot undo each other's updates. *)
Theorem collector_calls_commute (op1 op2 : Op) (r : Registry) :
  opTarget op1 <> opTarget op2 \/ opIsConnCount op1 <> opIsConnCount op2 ->
  (forall k, k ∈ written (runOp op1) -> k ∉ written (runOp op2)) /\
  exec (runOp op1 ++ runOp op2) r = exec (runOp op2 ++ runOp op1) r.
Proof.
  intros Hdiff.
  assert (forall k, k ∈ written (runOp op1) -> k ∉ written (runOp op2)) as Hd.
  { intros k H1 H2.
    destruct op1 as [db1 c1 o1|db1 c1 o1], op2 as [db2 c2 o2|db2 c2 o2];
      simpl in *.
    - apply collectMetrics_owned in H1 as [_ (? & ? & H1)].
      apply collectMetrics_owned in H2 as [_ (? & ? & H2)].
      destruct Hdiff as [Hdiff|Hdiff]; [|done]. congruence.
    - apply collectMetrics_owned in H1 as [H1 _].
      apply collectConnCount_owned in H2 as [H2 _].
      rewrite H2 in H1.
      repeat (apply elem_of_cons in H1 as [H1|H1]; [discriminate H1|]).
      by apply elem_of_nil in H1.
    - apply collectConnCount_owned in H1 as [H1 _].
      apply collectMetrics_owned in H2 as [H2 _].
      rewrite H1 in H2.
      repeat (apply elem_of_cons in H2 as [H2|H2]; [discriminate H2|]).
      by apply elem_of_nil in H2.
    - apply collectConnCount_owned in H1 as [_ (? & ? & H1)].
      apply collectConnCount_owned in H2 as [_ (? & ? & H2)].
      destruct Hdiff as [Hdiff|Hdiff]; [|done]. congruence. }
  split; [done|]. by apply exec_comm.
Qed.

(** X3: the registry the process-list export leaves does not depend on the
    order in which [range] visits [userDbCount] and its inner maps: any
    reordering of the writes gives the same registry. *)
Theorem export_order_irrelevant (cloudName originPrometheus : string)
    (userDbCount : UserDbCount) (evs : list Event) (r : Registry) :
  evs ≡ₚ exportProcesslist cloudName originPrometheus userDbCount ->
  exec evs r = exec (exportProcesslist cloudName originPrometheus userDbCount) r.
Proof.
  intros Hperm. symmetry. apply exec_Permutation; [|done].
  intros [g lvs] v1 v2 H1%elem_of_writes H2%elem_of_writes. simpl in H1, H2.
  apply elem_of_exportProcesslist_lookup2 in H1 as (u1 & d1 & n1 & Hl1 & H1).
  apply elem_of_exportProcesslist_lookup2 in H2 as (u2 & d2 & n2 & Hl2 & H2).
  simplify_eq. congruence.
Qed.

(** ** Rows that do not scan *)

Lemma scanNullString_total (c : Value) : is_Some (scanNullString c).
Proof. destruct c; by eexists. Qed.









(** What one iteration of the connection-count loop does, read off the
    columns of the row. *)
Lemma connCountRow_columns (cloudName originPrometheus : string)
    (c0 c1 c2 : Value) :
  connCountRow cloudName originPrometheus [c0; c1; c2] =
  match convertInt c2 with
  | Some n =>
      [EvSet connCount
         [cloudName; labelOf "UNKNOWN_USER" c1; labelOf "UNKNOWN_DB" c0;
          originPrometheus] (float64_of_int n)]
  | None =>
      [EvLog "database %s: Error scanning connection count row: %v"
             cloudName (ErrScanColumn 2)]
  end.
Proof.
  unfold connCountRow, scanConnRow. rewrite !scanNullString_eq. simpl.
  destruct (convertInt c2) as [n|]; simpl; [|done].
  by rewrite !orSentinel_scanned.
Qed.



(** The group of a process-list row, read off its columns. *)
Lemma processGroup_columns8 (c0 c1 c2 c3 c4 c5 c6 c7 : Value) :
  processGroup [c0; c1; c2; c3; c4; c5; c6; c7] =
  if decide (is_Some (convertInt c0))
  then Some (labelOf "UNKNOWN_USER" c1, labelOf "UNKNOWN_DB" c3)
  else None.
Proof.
  unfold processGroup, scanProcessRow, scanProcessRow8, scanProcessRow9.
  rewrite !scanNullString_eq. cbn [length].
  destruct (convertInt c0) as [i|]; simpl; [|done].
  by rewrite !orSentinel_scanned.
Qed.

Lemma processGroup_columns9 (c0 c1 c2 c3 c4 c5 c6 c7 c8 : Value) :
  processGroup [c0; c1; c2; c3; c4; c5; c6; c7; c8] =
  if decide (is_Some (convertInt c0))
  then Some (labelOf "UNKNOWN_USER" c1, labelOf "UNKNOWN_DB" c3)
  else None.
Proof.
  unfold processGroup, scanProcessRow, scanProcessRow8, scanProcessRow9.
  rewrite !scanNullString_eq. cbn [length].
  destruct (convertInt c0) as [i|]; simpl; [|done].
  by rewrite !orSentinel_scanned.
Qed.

Lemma processGroup_width (row : Row) :
  length row <> 8%nat -> length row <> 9%nat -> processGroup row = None.
Proof.
  intros H8 H9. unfold processGroup, scanProcessRow.
  by rewrite scanProcessRow8_arity, scanProcessRow9_arity.
Qed.

(** X6: a process-list row is counted exactly when it has 8 or 9 columns and
    its Id column converts to an integer; the group it is counted in is
    read from the User and db columns alone, NULL giving the sentinel: Host,
    Command, Time, State, Info and Progress never make a row fail and never
    change its group. *)
Theorem process_row_group (row : Row) :
  processGroup row =
  match row with
  | c0 :: c1 :: _ :: c3 :: rest =>
      if decide ((length rest = 4%nat \/ length rest = 5%nat) /\
                 is_Some (convertInt c0))
      then Some (labelOf "UNKNOWN_USER" c1, labelOf "UNKNOWN_DB" c3)
      else None
  | _ => None
  end.
Proof.
  destruct row as [|c0 [|c1 [|c2 [|c3 rest]]]];
    try (by apply processGroup_width).
  destruct (decide (length rest = 4%nat \/ length rest = 5%nat))
    as [[Hl|Hl]|Hl].
  - destruct rest as [|c4 [|c5 [|c6 [|c7 [|??]]]]]; try done.
    rewrite processGroup_columns8.
    destruct (decide (is_Some (convertInt c0))).
    + by rewrite decide_True by auto.
    + rewrite decide_False; [done|]. by intros [_ ?].
  - destruct rest as [|c4 [|c5 [|c6 [|c7 [|c8 [|??]]]]]]; try done.
    rewrite processGroup_columns9.
    destruct (decide (is_Some (convertInt c0))).
    + by rewrite decide_True by auto.
    + rewrite decide_False; [done|]. by intros [_ ?].
  - rewrite decide_False by (by intros [? _]).
    apply processGroup_width; simpl; lia.
Qed.

(** X7: when the storage query is answered and SHOW PROCESSLIST fails, the
    cycle still performs every write of the storage rows, then logs the
    error; the process-list and connection-count gauges keep the values
    they had. *)
Theorem processlist_failure_keeps_storage (db : DB)
    (cloudName originPrometheus : string) (rows : list Row) (msg : string)
    (r : Registry) :
  db tableSizeQuery = QueryRows rows ->
  db showProcesslistQuery = QueryError msg ->
  let storage := rows ≫= tableSizeRow cloudName originPrometheus in
  let evs := collectMetrics db cloudName originPrometheus in
  evs = storage ++
        [EvLog "database %s: Error executing SHOW PROCESSLIST: %v"
               cloudName (ErrQuery msg)] /\
  exec evs r = exec storage r /\
  (forall lvs,
     exec evs r !! (processListCount, lvs) = r !! (processListCount, lvs) /\
     exec evs r !! (connCount, lvs) = r !! (connCount, lvs)).
Proof.
  intros Hq Hp storage evs.
  assert (evs = storage ++
            [EvLog "database %s: Error executing SHOW PROCESSLIST: %v"
                   cloudName (ErrQuery msg)]) as Hevs.
  { subst evs. unfold collectMetrics, collectProcesslist. by rewrite Hq, Hp. }
  split; [done|]. rewrite Hevs, exec_app. split; [done|].
  intros lvs. simpl.
  split; apply exec_unwritten; intros [v Hv]%elem_of_written;
    apply list_elem_of_bind in Hv as (row & Hv & _);
    apply tableSizeRow_owned in Hv as [Hg _];
    repeat (apply elem_of_cons in Hg as [Hg|Hg]; [discriminate Hg|]);
    by apply elem_of_nil in Hg.
Qed.

(** ** The counters of the process-list loop *)










(** ** NULL and the sentinels *)

Lemma labelOf_spellNull (sentinel : string) (c : Value) :
  labelOf sentinel (spellNull sentinel c) = labelOf sentinel c.
Proof. by destruct c. Qed.

Lemma processGroup_spell (row : Row) :
  processGroup (spellProcessRow row) = processGroup row.
Proof.
  destruct row as [|c0 [|c1 [|c2 [|c3 rest]]]]; try done.
  destruct (decide (length rest = 4%nat)) as [H4|H4].
  { destruct rest as [|c4 [|c5 [|c6 [|c7 [|??]]]]]; try done.
    cbn [spellProcessRow].
    by rewrite !processGroup_columns8, !labelOf_spellNull. }
  destruct (decide (length rest = 5%nat)) as [H5|H5].
  { destruct rest as [|c4 [|c5 [|c6 [|c7 [|c8 [|??]]]]]]; try done.
    cbn [spellProcessRow].
    by rewrite !processGroup_columns9, !labelOf_spellNull. }
  rewrite !processGroup_width; simpl; try lia. done.
Qed.

(** An iteration of the process-list loop depends on the row through its
    group only. *)
Lemma processlistRow_group (m : UserDbCount) (row row' : Row) :
  processGroup row = processGroup row' ->
  processlistRow m row = processlistRow m row'.
Proof.
  unfold processGroup, processlistRow.
  destruct (scanProcessRow row) as [p|], (scanProcessRow row') as [p'|];
    simpl; try done.
  by intros [= -> ->].
Qed.

(** X9: the collectors cannot tell NULL from the sentinel text: a
    process-list answer in which NULL users and databases are spelled
    UNKNOWN_USER and UNKNOWN_DB gives the effects of the answer with NULL,
    and so does a connection-count answer; a user or database that bears the
    name of a sentinel is merged with NULL. *)
Theorem sentinel_is_ordinary_text (db db' : DB)
    (cloudName originPrometheus : string) (rows : list Row) :
  (db showProcesslistQuery = QueryRows rows ->
   db' showProcesslistQuery = QueryRows (spellProcessRow <$> rows) ->
   collectProcesslist db' cloudName originPrometheus =
   collectProcesslist db cloudName originPrometheus) /\
  (db connCountQuery = QueryRows rows ->
   db' connCountQuery = QueryRows (spellConnRow <$> rows) ->
   collectConnCount db' cloudName originPrometheus =
   collectConnCount db cloudName originPrometheus).
Proof.
  split; intros Hq Hq'.
  - unfold collectProcesslist. rewrite Hq, Hq'. f_equal.
    generalize (∅ : UserDbCount). clear Hq Hq'.
    induction rows as [|row rows IH]; intros m; [done|].
    rewrite fmap_cons. cbn [foldl].
    rewrite (processlistRow_group m _ row) by apply processGroup_spell.
    apply IH.
  - unfold collectConnCount. rewrite Hq, Hq'. clear Hq Hq'.
    induction rows as [|row rows IH]; [done|].
    rewrite fmap_cons, !bind_cons, IH. f_equal.
    destruct row as [|c0 [|c1 [|c2 [|??]]]]; try done.
    cbn [spellConnRow].
    by rewrite !connCountRow_columns, !labelOf_spellNull.
Qed.

(** ** Cycles that fail *)

Lemma exec_writes (evs evs' : list Event) (r : Registry) :
  writes evs = writes evs' -> exec evs r = exec evs' r.
Proof. intros Hw. by rewrite !exec_union, Hw. Qed.

Lemma metricsLoop_writes_filter (cycles : list DB)
    (cloudName originPrometheus : string) :
  writes (metricsLoop cycles cloudName originPrometheus) =
  writes (metricsLoop (filter (fun db => answered tableSizeQuery db) cycles)
            cloudName originPrometheus).
Proof.
  unfold metricsLoop. induction cycles as [|db cycles IH]; [done|].
  rewrite filter_cons, bind_cons, writes_app, IH.
  destruct (db tableSizeQuery) as [msg|rows] eqn:Hq.
  - rewrite decide_False by (unfold answered; rewrite Hq; simpl; tauto).
    unfold collectMetrics. by rewrite Hq.
  - rewrite decide_True by (unfold answered; rewrite Hq; exact I).
    by rewrite bind_cons, writes_app.
Qed.

Lemma connCountLoop_writes_filter (cycles : list DB)
    (cloudName originPrometheus : string) :
  writes (connCountLoop cycles cloudName originPrometheus) =
  writes (connCountLoop (filter (fun db => answered connCountQuery db) cycles)
            cloudName originPrometheus).
Proof.
  unfold connCountLoop. induction cycles as [|db cycles IH]; [done|].
  rewrite filter_cons, bind_cons, writes_app, IH.
  destruct (db connCountQuery) as [msg|rows] eqn:Hq.
  - rewrite decide_False by (unfold answered; rewrite Hq; simpl; tauto).
    unfold collectConnCount. by rewrite Hq.
  - rewrite decide_True by (unfold answered; rewrite Hq; exact I).
    by rewrite bind_cons, writes_app.
Qed.

(** X10: over any number of cycles, the cycles whose first query fails leave
    no trace in the registry: the storage loop performs the writes of the
    cycles whose storage query is answered, in their order, and the
    connection-count loop those of the cycles whose query is answered. *)
Theorem failed_cycles_leave_no_trace (cycles : list DB)
    (cloudName originPrometheus : string) (r : Registry) :
  let metricsOk := filter (fun db => answered tableSizeQuery db) cycles in
  let connOk := filter (fun db => answered connCountQuery db) cycles in
  writes (metricsLoop cycles cloudName originPrometheus) =
    writes (metricsLoop metricsOk cloudName originPrometheus) /\
  writes (connCountLoop cycles cloudName originPrometheus) =
    writes (connCountLoop connOk cloudName originPrometheus) /\
  exec (metricsLoop cycles cloudName originPrometheus) r =
    exec (metricsLoop metricsOk cloudName originPrometheus) r /\
  exec (connCountLoop cycles cloudName originPrometheus) r =
    exec (connCountLoop connOk cloudName originPrometheus) r.
Proof.
  intros metricsOk connOk.
  pose proof (metricsLoop_writes_filter cycles cloudName originPrometheus)
    as Hm.
  pose proof (connCountLoop_writes_filter cycles cloudName originPrometheus)
    as Hc.
  split; [done|]. split; [done|]. split; by apply exec_writes.
Qed.

(** ** Counts delivered as integers *)

Lemma digit_of_pretty_N_char (d : N) :
  (d < 10)%N ->
  digit_of (pretty_N_char d) = Some (Z.of_N d) /\
  Ascii.eqb (pretty_N_char d) "-" = false /\
  Ascii.eqb (pretty_N_char d) "+" = false.
Proof.
  intros Hd.
  assert (d = 0 \/ d = 1 \/ d = 2 \/ d = 3 \/ d = 4 \/ d = 5 \/ d = 6 \/
          d = 7 \/ d = 8 \/ d = 9)%N as Hcases by lia.
  repeat (destruct Hcases as [->|Hcases]; [done|]). by subst.
Qed.

(** Reading back the digits that [FormatInt] prints in front of a text. *)
Lemma parseDigits_pretty_N_go (x : N) :
  exists k, 0 <= k /\
    forall acc s,
      parseDigits acc (pretty_N_go x s) =
      parseDigits (acc * 10 ^ k + Z.of_N x) s.
Proof.
  induction (N.lt_wf_0 x) as [x _ IH].
  destruct (decide (x = 0%N)) as [->|Hx].
  { exists 0. split; [done|]. intros acc s. rewrite pretty_N_go_0.
    f_equal. lia. }
  destruct (IH (x `div` 10)%N) as (k & Hk & IHk).
  { apply N.div_lt; lia. }
  exists (k + 1). split; [lia|]. intros acc s.
  rewrite pretty_N_go_step by lia. rewrite IHk. cbn [parseDigits].
  destruct (digit_of_pretty_N_char (x `mod` 10)%N) as (-> & _ & _).
  { apply N.mod_lt. lia. }
  f_equal. rewrite N2Z.inj_div, N2Z.inj_mod, Z.pow_add_r by lia.
  change (Z.of_N 10) with 10.
  pose proof (Z.div_mod (Z.of_N x) 10). lia.
Qed.

Lemma pretty_N_go_head (x : N) (s : string) :
  (0 < x)%N ->
  exists d s', (d < 10)%N /\ pretty_N_go x s = String (pretty_N_char d) s'.
Proof.
  revert s. induction (N.lt_wf_0 x) as [x _ IH]. intros s Hx.
  rewrite pretty_N_go_step by done.
  destruct (decide (x `div` 10 = 0)%N) as [->|Hd].
  - rewrite pretty_N_go_0. eexists _, _. split; [|done].
    apply N.mod_lt. lia.
  - apply IH; [apply N.div_lt; lia|]. by apply N.neq_0_lt_0.
Qed.

Lemma ParseInt_pretty_pos (p : positive) :
  parseDigits 0 (pretty_N_go (N.pos p) "") = Some (Z.pos p) /\
  exists d s', (d < 10)%N /\
    pretty_N_go (N.pos p) "" = String (pretty_N_char d) s'.
Proof.
  split; [|by apply pretty_N_go_head].
  destruct (parseDigits_pretty_N_go (N.pos p)) as (k & _ & ->). done.
Qed.

Lemma ParseInt_minus (a : ascii) (rest : string) :
  ParseInt (String "-" (String a rest)) =
  match parseDigits 0 (String a rest) with
  | Some n =>
      if (- 2 ^ 63 <=? - n) && (- n <? 2 ^ 63) then Some (- n) else None
  | None => None
  end.
Proof. reflexivity. Qed.

Lemma ParseInt_FormatInt (n : Z) :
  - 2 ^ 63 <= n < 2 ^ 63 -> ParseInt (FormatInt n) = Some n.
Proof.
  intros Hn. unfold FormatInt, pretty, pretty_Z.
  destruct n as [|p|p]; [done|..].
  - unfold pretty, pretty_positive, pretty, pretty_N.
    rewrite decide_False by done.
    destruct (ParseInt_pretty_pos p) as (Hp & d & s' & Hd & Hs).
    rewrite Hs in Hp |- *.
    destruct (digit_of_pretty_N_char d Hd) as (_ & Hminus & Hplus).
    unfold ParseInt. rewrite Hminus, Hplus. cbn [orb]. rewrite Hp.
    rewrite (proj2 (andb_true_iff _ _)); [done|]. split; lia.
  - unfold pretty, pretty_positive, pretty, pretty_N.
    rewrite decide_False by done.
    destruct (ParseInt_pretty_pos p) as (Hp & d & s' & Hd & Hs).
    rewrite Hs in Hp |- *.
    change (ParseInt (String "-" (String (pretty_N_char d) s'))
            = Some (Z.neg p)).
    rewrite ParseInt_minus, Hp.
    rewrite (proj2 (andb_true_iff _ _)); [done|]. split; lia.
Qed.

(** X11: a number within the 64-bit range that the driver delivers as an
    [int64], or as the decimal text [FormatInt] prints for it, is scanned
    into an [int] as that number: the connection-count loop writes it to
    the gauge, converted to [float64]. *)
Theorem int_count_round_trip (cloudName originPrometheus : string)
    (c0 c1 : Value) (n : Z) :
  - 2 ^ 63 <= n < 2 ^ 63 ->
  ParseInt (FormatInt n) = Some n /\
  convertInt (VInt64 n) = Some n /\
  convertInt (VBytes (FormatInt n)) = Some n /\
  connCountRow cloudName originPrometheus [c0; c1; VInt64 n] =
    [EvSet connCount
       [cloudName; labelOf "UNKNOWN_USER" c1; labelOf "UNKNOWN_DB" c0;
        originPrometheus] (float64_of_int n)] /\
  connCountRow cloudName originPrometheus [c0; c1; VBytes (FormatInt n)] =
    connCountRow cloudName originPrometheus [c0; c1; VInt64 n].
Proof.
  intros Hn. pose proof (ParseInt_FormatInt n Hn) as Hrt.
  assert (convertInt (VInt64 n) = Some n) as Hi by done.
  assert (convertInt (VBytes (FormatInt n)) = Some n) as Hb by done.
  split; [done|]. split; [done|]. split; [done|].
  rewrite !connCountRow_columns, Hi, Hb. done.
Qed.

End Collectors.

(** * Further properties of [main] *)

Section Process.

Context `{!Strconv}.

Lemma list_insert_split {A} (l : list A) (i : nat) (x y : A) :
  l !! i = Some x ->
  exists l1 l2, l = l1 ++ x :: l2 /\ <[i:=y]> l = l1 ++ y :: l2.
Proof.
  intros Hi. exists (take i l), (drop (S i) l). split.
  - by rewrite take_drop_middle.
  - by rewrite insert_take_drop by (by eapply lookup_lt_Some).
Qed.

Lemma opening_app (l1 l2 : list Goroutine) :
  opening (l1 ++ l2) = opening l1 ++ opening l2.
Proof. apply omap_app. Qed.

Lemma polling_app (l1 l2 : list Goroutine) :
  polling (l1 ++ l2) = polling l1 ++ polling l2.
Proof. apply omap_app. Qed.

Lemma counting_app (l1 l2 : list Goroutine) :
  counting (l1 ++ l2) = counting l1 ++ counting l2.
Proof. apply omap_app. Qed.

Lemma opening_cons (g : Goroutine) (l : list Goroutine) :
  opening (g :: l) =
  match g with GOpen c => c :: opening l | _ => opening l end.
Proof. by destruct g. Qed.

Lemma polling_cons (g : Goroutine) (l : list Goroutine) :
  polling (g :: l) =
  match g with GMetrics c => c :: polling l | _ => polling l end.
Proof. by destruct g. Qed.

Lemma counting_cons (g : Goroutine) (l : list Goroutine) :
  counting (g :: l) =
  match g with GConnCount c => c :: counting l | _ => counting l end.
Proof. by destruct g. Qed.

Ltac stage_simpl :=
  rewrite ?opening_app, ?polling_app, ?counting_app,
    ?opening_cons, ?polling_cons, ?counting_cons;
  change (opening []) with (@nil dbConfig);
  change (polling []) with (@nil dbConfig);
  change (counting []) with (@nil dbConfig);
  cbv beta iota;
  rewrite <- ?(assoc_L (++)), ?(right_id_L [] (++)); cbn [app].

(** Every configured target is at one place: still to be started, waiting to
    open, or polling; and the connection-count loops are those of the
    storage loops. *)
Lemma reachable_accounting (sqlOpen : string -> bool)
    (databases : list dbConfig) (p : Process) :
  reachable sqlOpen databases p ->
  pending p ++ opening (goroutines p) ++ polling (goroutines p) ≡ₚ databases /\
  counting (goroutines p) ≡ₚ polling (goroutines p).
Proof.
  intros Hr. induction Hr as [|p p' _ [IHd IHc] Hstep].
  - unfold pending. simpl. by rewrite !(right_id_L [] (++)).
  - destruct Hstep as [p c' todo He Hm|p He Hm|p|p He Hm|p
                      |p i c' He Hi Ho|p i c' He Hi Ho
                      |p i c' db' He Hi|p i c' db' He Hi];
      unfold pending in *; simpl; try done.
    + rewrite Hm in IHd. split; [|by stage_simpl].
      rewrite <- IHd. stage_simpl. by rewrite <- !Permutation_middle.
    + by rewrite Hm in IHd.
    + destruct (list_insert_split _ _ _ (GMetrics c') Hi)
        as (l1 & l2 & Hl & ->).
      rewrite Hl in IHd, IHc. revert IHd IHc. stage_simpl.
      intros IHd IHc. split.
      * rewrite <- IHd. by rewrite <- !Permutation_middle.
      * rewrite (assoc_L (++)), IHc, <- !Permutation_middle.
        by rewrite (right_id_L [] (++)).
Qed.

Lemma elem_of_opening (c : dbConfig) (gs : list Goroutine) :
  c ∈ opening gs <-> GOpen c ∈ gs.
Proof.
  unfold opening. rewrite list_elem_of_omap. split.
  - intros (g & Hg & Hc). by destruct g; simplify_eq.
  - intros Hg. by exists (GOpen c).
Qed.

Lemma elem_of_polling (c : dbConfig) (gs : list Goroutine) :
  c ∈ polling gs <-> GMetrics c ∈ gs.
Proof.
  unfold polling. rewrite list_elem_of_omap. split.
  - intros (g & Hg & Hc). by destruct g; simplify_eq.
  - intros Hg. by exists (GMetrics c).
Qed.

Lemma elem_of_counting (c : dbConfig) (gs : list Goroutine) :
  c ∈ counting gs <-> GConnCount c ∈ gs.
Proof.
  unfold counting. rewrite list_elem_of_omap. split.
  - intros (g & Hg & Hc). by destruct g; simplify_eq.
  - intros Hg. by exists (GConnCount c).
Qed.

Lemma stages_length (gs : list Goroutine) :
  length gs =
  (length (opening gs) + length (polling gs) + length (counting gs))%nat.
Proof.
  induction gs as [|g gs IH]; [done|].
  rewrite opening_cons, polling_cons, counting_cons.
  destruct g; simpl; lia.
Qed.

(** The listener is up exactly when [main] is inside
    [http.ListenAndServe]. *)
Lemma reachable_listening (sqlOpen : string -> bool)
    (databases : list dbConfig) (p : Process) :
  reachable sqlOpen databases p ->
  listening p = true <-> mainpc p = MServe.
Proof.
  intros Hr. induction Hr as [|p p' _ IH Hstep]; [done|].
  destruct Hstep as [p c' todo He Hm|p He Hm|p|p He Hm|p He Hl
                    |p i c' He Hi Ho|p i c' He Hi Ho
                    |p i c' db' He Hi|p i c' db' He Hi]; simpl; try done.
  - rewrite Hm in IH. split; [|done]. intros Hl. by apply IH in Hl.
  - split; [by intros _; apply IH|done].
Qed.


(** X12: in every state [main] can reach, each target is at exactly one
    place -- still to be started, waiting to open, or polling -- and the
    connection-count loops are those of the storage loops: a target never has
    two storage loops or two connection-count loops unless it is configured
    twice, loops run only for targets that opened, and there are at most two
    goroutines per configured target. *)
Theorem goroutines_accounted (sqlOpen : string -> bool)
    (databases : list dbConfig) (p : Process) :
  reachable sqlOpen databases p ->
  pending p ++ opening (goroutines p) ++ polling (goroutines p) ≡ₚ databases /\
  counting (goroutines p) ≡ₚ polling (goroutines p) /\
  (length (goroutines p) <= 2 * length databases)%nat /\
  (NoDup databases ->
     NoDup (opening (goroutines p) ++ polling (goroutines p)) /\
     NoDup (counting (goroutines p))) /\
  (forall c, c ∈ polling (goroutines p) ->
     sqlOpen (DSN c +:+ "?timeout=30s") = true).
Proof.
  intros Hr. destruct (reachable_accounting _ _ _ Hr) as [Hd Hc].
  split; [done|]. split; [done|]. split; [|split].
  - rewrite stages_length, Hc.
    apply Permutation_length in Hd. rewrite !length_app in Hd. lia.
  - intros Hnd. rewrite <- Hd in Hnd.
    apply NoDup_app in Hnd as (_ & _ & Hnd). split; [done|].
    rewrite Hc. by apply NoDup_app in Hnd as (_ & _ & Hnd).
  - intros c Hin%elem_of_polling.
    eapply reachable_pollers; [exact Hr|by left].
Qed.

(** X13: the listener starts only after [main] has started a goroutine for
    every configured target: whenever the process listens, [main] is inside
    [http.ListenAndServe] and each target has its goroutine, which waits to
    open or runs the storage loop. *)
Theorem listening_after_spawning (sqlOpen : string -> bool)
    (databases : list dbConfig) (p : Process) :
  reachable sqlOpen databases p ->
  listening p = true ->
  mainpc p = MServe /\
  opening (goroutines p) ++ polling (goroutines p) ≡ₚ databases /\
  (forall c, c ∈ databases ->
     GOpen c ∈ goroutines p \/ GMetrics c ∈ goroutines p).
Proof.
  intros Hr Hl. apply (reachable_listening _ _ _ Hr) in Hl.
  destruct (reachable_accounting _ _ _ Hr) as [Hd _].
  unfold pending in Hd. rewrite Hl in Hd. simpl in Hd.
  split; [done|]. split; [done|].
  intros c Hc. rewrite <- Hd in Hc.
  apply elem_of_app in Hc as [Hc|Hc];
    [left; by apply elem_of_opening|right; by apply elem_of_polling].
Qed.

(** ** What the scrapes show *)

Lemma elem_of_series_render (r : Registry) (x : string * list string) :
  x ∈ series (render r) <-> exists k, is_Some (r !! k) /\ x = (fqName k.1, k.2).
Proof.
  unfold series. rewrite list_elem_of_fmap. split.
  - intros (s & -> & Hs). apply elem_of_render in Hs as (k & v & Hk & ->).
    exists k. split; [by eexists|done].
  - intros (k & [v Hv] & ->). exists (sample_of (k, v)). split; [done|].
    apply elem_of_render. by exists k, v.
Qed.

Lemma series_render_exec (evs : list Event) (r : Registry) :
  series (render r) ⊆ series (render (exec evs r)).
Proof.
  intros x (k & Hk & ->)%elem_of_series_render.
  apply elem_of_series_render. exists k. split; [by apply exec_keeps|done].
Qed.


(** Each answered scrape lists a series once and only series the registry
    still holds, and a later scrape lists the series of an earlier one. *)
Lemma reachable_served (sqlOpen : string -> bool)
    (databases : list dbConfig) (p : Process) :
  reachable sqlOpen databases p ->
  (forall s, s ∈ served p ->
     NoDup (series s) /\ series s ⊆ series (render (registry p))) /\
  (forall i j si sj, (i <= j)%nat ->
     served p !! i = Some si -> served p !! j = Some sj ->
     series si ⊆ series sj).
Proof.
  intros Hr. induction Hr as [|p p' Hr [IH1 IH2] Hstep].
  - split.
    + intros s Hs. by apply elem_of_nil in Hs.
    + intros i j si sj _ Hi. simpl in Hi. by rewrite lookup_nil in Hi.
  - destruct Hstep as [p c' todo|p|p|p|p He Hl|p i c'|p i c' He Hi Ho
                      |p i c' db' He Hi|p i c' db' He Hi];
      simpl; try (split; [exact IH1|exact IH2]).
    + split.
      * intros s [Hs|Hs]%elem_of_app; [by apply IH1|].
        apply list_elem_of_singleton in Hs as ->.
        split; [apply render_series_NoDup|done].
      * intros i j si sj Hij Hi Hj.
        apply lookup_app_Some in Hj as [Hj|[Hlen Hj]].
        -- rewrite lookup_app_l in Hi
             by (apply lookup_lt_Some in Hj; lia).
           by eapply IH2.
        -- apply list_lookup_singleton_Some in Hj as [_ <-].
           apply lookup_app_Some in Hi as [Hi|[_ Hi]].
           ++ apply IH1. by eapply list_elem_of_lookup_2.
           ++ by apply list_lookup_singleton_Some in Hi as [_ <-].
    + split; [|exact IH2]. intros s Hs. destruct (IH1 s Hs) as [Hnd Hsub].
      split; [done|]. etrans; [exact Hsub|apply series_render_exec].
    + split; [|exact IH2]. intros s Hs. destruct (IH1 s Hs) as [Hnd Hsub].
      split; [done|]. etrans; [exact Hsub|apply series_render_exec].
Qed.


(** X15: the scrapes of one run never lose a series: a series (metric name
    and label values) listed by a scrape is listed by every later scrape, so
    the pages never get shorter, and no scrape lists a series twice. *)
Theorem scrapes_never_lose_series (sqlOpen : string -> bool)
    (databases : list dbConfig) (p : Process) :
  reachable sqlOpen databases p ->
  (forall i j si sj, (i <= j)%nat ->
     served p !! i = Some si -> served p !! j = Some sj ->
     series si ⊆ series sj /\ (length si <= length sj)%nat) /\
  (forall s, s ∈ served p -> NoDup (series s)).
Proof.
  intros Hr. destruct (reachable_served _ _ _ Hr) as [H1 H2]. split.
  - intros i j si sj Hij Hi Hj.
    pose proof (H2 i j si sj Hij Hi Hj) as Hsub. split; [done|].
    destruct (H1 si) as [Hnd _]; [by eapply list_elem_of_lookup_2|].
    pose proof (submseteq_length _ _ (NoDup_submseteq _ _ Hnd Hsub)) as Hlen.
    unfold series in Hlen. by rewrite !length_fmap in Hlen.
  - intros s Hs. by apply H1.
Qed.


(** ** The configuration *)

(** X17: when [readConfig] returns an error -- the file could not be read, or
    its content could not be decoded -- [main] exits with status 1 at once:
    whatever [readConfig] returned as configuration is dropped, no goroutine
    is started, the listener is never started and nothing is collected or
    served. *)
Theorem config_failure_is_fatal (ReadFile : string -> string + string)
    (Unmarshal : string -> Config -> Config * option string)
    (sqlOpen : string -> bool) (err : string) (p : Process) :
  (readConfig ReadFile Unmarshal "config.yaml").2 = Some err ->
  (ReadFile "config.yaml" = inl err \/
   exists data, ReadFile "config.yaml" = inr data /\
     (Unmarshal data {| Databases := [] |}).2 = Some err) /\
  (rtc (step sqlOpen) (boot ReadFile Unmarshal) p ->
     exit p = Some 1 /\ goroutines p = [] /\ listening p = false /\
     registry p = ∅ /\ served p = []).
Proof.
  unfold boot, readConfig. intros Herr. split.
  - destruct (ReadFile "config.yaml") as [e|data]; [left; by simplify_eq/=|].
    right. exists data. split; [done|].
    destruct (Unmarshal data _) as [config [e|]]; by simplify_eq/=.
  - assert (forall q, exit q = Some 1 -> rtc (step sqlOpen) q p -> p = q)
      as Hstuck.
    { intros q Hq Hsteps. destruct Hsteps as [|q q' q'' Hstep _]; [done|].
      apply step_exit in Hstep as [He _]. congruence. }
    destruct (ReadFile "config.yaml") as [e|data].
    + intros Hsteps. by rewrite (Hstuck (fatal (start [])) eq_refl Hsteps).
    + destruct (Unmarshal data _) as [config [e|]]; [|done].
      intros Hsteps. by rewrite (Hstuck (fatal (start [])) eq_refl Hsteps).
Qed.

(** X18: when [readConfig] returns no error, the file was read and decoded,
    and [main] starts from the decoded list of targets: every state it
    reaches is a state of that configuration, so each target of the file gets
    its goroutine and no other target is ever polled. *)
Theorem config_is_the_decoded_file (ReadFile : string -> string + string)
    (Unmarshal : string -> Config -> Config * option string)
    (sqlOpen : string -> bool) (p : Process) :
  (readConfig ReadFile Unmarshal "config.yaml").2 = None ->
  rtc (step sqlOpen) (boot ReadFile Unmarshal) p ->
  exists data config,
    ReadFile "config.yaml" = inr data /\
    Unmarshal data {| Databases := [] |} = (config, None) /\
    reachable sqlOpen (Databases config) p /\
    (forall c, GOpen c ∈ goroutines p \/ GMetrics c ∈ goroutines p \/
               GConnCount c ∈ goroutines p -> c ∈ Databases config).
Proof.
  unfold boot, readConfig. intros Hok Hsteps.
  destruct (ReadFile "config.yaml") as [e|data]; [done|].
  destruct (Unmarshal data _) as [config [e|]] eqn:Hu; [done|].
  exists data, config. split; [done|]. split; [done|].
  assert (reachable sqlOpen (Databases config) p) as Hr.
  { simpl in Hsteps.
    eapply (rtc_ind_r (fun q => reachable sqlOpen (Databases config) q));
      [constructor| |exact Hsteps].
    intros q q' _ Hstep Hq. by eapply reachable_step. }
  split; [done|]. intros c Hc.
  destruct (reachable_accounting _ _ _ Hr) as [Hd Hcount].
  rewrite <- Hd, !elem_of_app.
  destruct Hc as [Hc|[Hc|Hc]].
  - right; left. by apply elem_of_opening.
  - right; right. by apply elem_of_polling.
  - right; right. rewrite <- Hcount. by apply elem_of_counting.
Qed.

End Process.

(** * [init] *)

Lemma MustRegister_registered (c : Collector) (registered : list Collector) :
  c ∈ registered -> MustRegister c registered = None.
Proof.
  intros Hc. unfold MustRegister.
  assert (existsb (collides c) registered = true) as ->; [|done].
  apply existsb_exists. exists c. split; [by apply list_elem_of_In|].
  destruct c; simpl; try done; by apply bool_decide_eq_true.
Qed.

Lemma MustRegister_fresh (g : GaugeVec) (registered : list Collector) :
  (forall g', VecCollector g' ∈ registered -> g' <> g) ->
  MustRegister (VecCollector g) registered = Some (registered ++ [VecCollector g]).
Proof.
  intros Hfresh. unfold MustRegister.
  assert (existsb (collides (VecCollector g)) registered = false) as ->;
    [|done].
  apply not_true_is_false. intros (c & Hc & Hcol)%existsb_exists.
  apply list_elem_of_In in Hc.
  destruct c as [g'| | |]; simpl in Hcol; try discriminate Hcol.
  apply bool_decide_eq_true in Hcol.
  apply (inj fqName) in Hcol. by apply (Hfresh g').
Qed.

Lemma MustRegister_keeps (c c' : Collector) (registered r : list Collector) :
  MustRegister c registered = Some r -> c' ∈ registered -> c' ∈ r.
Proof.
  unfold MustRegister. destruct (existsb _ _); [done|].
  intros [= <-] Hc. apply elem_of_app. by left.
Qed.

(** X19: [init] leaves exactly the five gauge vectors registered, in the
    order of its calls, whatever default collectors (Go runtime, build info,
    process) were registered before; it panics when one of the five gauge
    vectors is registered already, so it cannot run twice. *)
Theorem init_registers_the_gauges (registered : list Collector) :
  let gauges :=
    VecCollector <$>
      [tableSize; indexSize; tableRows; processListCount; connCount] in
  ((forall g, VecCollector g ∉ registered) -> init registered = Some gauges) /\
  (forall g, VecCollector g ∈ registered -> init registered = None) /\
  init gauges = None.
Proof.
  intros gauges.
  assert (forall l g, VecCollector g ∈ l -> init l = None) as Hpanic.
  { intros l g Hg. unfold init.
    destruct (MustRegister (VecCollector tableSize) l) as [r1|] eqn:H1;
      [|done]; simpl.
    destruct (MustRegister (VecCollector indexSize) r1) as [r2|] eqn:H2;
      [|done]; simpl.
    destruct (MustRegister (VecCollector tableRows) r2) as [r3|] eqn:H3;
      [|done]; simpl.
    destruct (MustRegister (VecCollector processListCount) r3) as [r4|] eqn:H4;
      [|done]; simpl.
    destruct (MustRegister (VecCollector connCount) r4) as [r5|] eqn:H5;
      [|done]; exfalso.
    pose proof (MustRegister_keeps _ _ _ _ H1 Hg) as Hg1.
    pose proof (MustRegister_keeps _ _ _ _ H2 Hg1) as Hg2.
    pose proof (MustRegister_keeps _ _ _ _ H3 Hg2) as Hg3.
    pose proof (MustRegister_keeps _ _ _ _ H4 Hg3) as Hg4.
    destruct g.
    - by rewrite (MustRegister_registered _ _ Hg) in H1.
    - by rewrite (MustRegister_registered _ _ Hg1) in H2.
    - by rewrite (MustRegister_registered _ _ Hg2) in H3.
    - by rewrite (MustRegister_registered _ _ Hg3) in H4.
    - by rewrite (MustRegister_registered _ _ Hg4) in H5. }
  split; [|split].
  - intros Hnone. unfold init.
    assert (forall gs g, g ∉ gs ->
      MustRegister (VecCollector g) (registered ++ (VecCollector <$> gs)) =
        Some (registered ++ (VecCollector <$> (gs ++ [g])))) as Hreg.
    { intros gs g Hg. rewrite MustRegister_fresh.
      - by rewrite fmap_app, (assoc_L (++)).
      - intros g' [Hg'|Hg']%elem_of_app; [by apply Hnone in Hg'|].
        apply list_elem_of_fmap in Hg' as (g'' & [= <-] & Hg').
        by intros ->. }
    rewrite <- (right_id_L [] (++) registered) at 1.
    change [] with (VecCollector <$> []) at 1.
    do 5 (rewrite Hreg
            by (intros Hg;
                repeat (apply elem_of_cons in Hg as [Hg|Hg]; [discriminate Hg|]);
                by apply elem_of_nil in Hg);
          cbn [mbind option_bind]).
    simpl.
    f_equal. unfold Unregister. rewrite !filter_app.
    assert (filter (fun c' => c' <> ProcessCollector)
              (filter (fun c' => c' <> BuildInfoCollector)
                 (filter (fun c' => c' <> GoCollector) registered)) = [])
      as ->; [|done].
    clear Hreg. induction registered as [|c l IH]; [done|].
    assert (forall g, VecCollector g ∉ l) as Hl
      by (intros g Hg; apply (Hnone g); by apply list_elem_of_further).
    destruct c as [g| | |].
    + destruct (Hnone g). apply list_elem_of_here.
    + rewrite filter_cons_False by (by intros ?). by apply IH.
    + rewrite filter_cons_True by done.
      rewrite filter_cons_False by (by intros ?). by apply IH.
    + rewrite !filter_cons_True by done.
      rewrite filter_cons_False by (by intros ?). by apply IH.
  - intros g. apply Hpanic.
  - apply (Hpanic gauges tableSize). apply list_elem_of_here.
Qed.

(** * The queries *)

Section Queries.

Context `{!Strconv}.

(** X20: the collectors read the database through their fixed queries only:
    [collectConnCount] depends on the answer to the connection-count query
    alone, [collectMetrics] on the answers to the storage query and to SHOW
    PROCESSLIST, and when the storage query fails not even on the latter:
    SHOW PROCESSLIST is not issued in that cycle. *)
Theorem collectors_issue_fixed_queries (db db' : DB)
    (cloudName originPrometheus : string) :
  (db connCountQuery = db' connCountQuery ->
     collectConnCount db cloudName originPrometheus =
     collectConnCount db' cloudName originPrometheus) /\
  (db tableSizeQuery = db' tableSizeQuery ->
   db showProcesslistQuery = db' showProcesslistQuery ->
     collectMetrics db cloudName originPrometheus =
     collectMetrics db' cloudName originPrometheus) /\
  (forall msg, db tableSizeQuery = QueryError msg ->
     db' tableSizeQuery = QueryError msg ->
     collectMetrics db cloudName originPrometheus =
     collectMetrics db' cloudName originPrometheus).
Proof.
  unfold collectMetrics, collectProcesslist, collectConnCount.
  split; [|split].
  - by intros ->.
  - by intros -> ->.
  - by intros msg -> ->.
Qed.

End Queries.

(** * The further properties at the worked inputs *)

(** The run of shard1 is a run of [main]. *)
Lemma shard1_waiting_reachable (sqlOpen : string -> bool) :
  @reachable decimalStrconv sqlOpen [shard1] shard1_waiting.
Proof.
  assert (@reachable decimalStrconv sqlOpen [shard1] shard1_spawned) as H1.
  { exact (reachable_step _ _ _ _ (reachable_start _ _)
             (step_go _ (start [shard1]) shard1 [] eq_refl eq_refl)). }
  assert (@reachable decimalStrconv sqlOpen [shard1] shard1_listening) as H2.
  { exact (reachable_step _ _ _ _ H1
             (step_listen _ shard1_spawned eq_refl eq_refl)). }
  exact (reachable_step _ _ _ _ H2
           (step_scrape _ shard1_listening eq_refl eq_refl)).
Qed.

Lemma shard1_scraped_reachable :
  @reachable decimalStrconv (fun _ => true) [shard1] shard1_scraped.
Proof.
  assert (@reachable decimalStrconv (fun _ => true) [shard1] shard1_opened)
    as H1.
  { exact (reachable_step _ _ _ _ (shard1_waiting_reachable _)
             (step_open _ shard1_waiting 0%nat shard1
                eq_refl eq_refl eq_refl)). }
  assert (@reachable decimalStrconv (fun _ => true) [shard1] shard1_collected)
    as H2.
  { exact (reachable_step _ _ _ _ H1
             (step_metrics _ shard1_opened 0%nat shard1 users_db
                eq_refl eq_refl)). }
  exact (reachable_step _ _ _ _ H2
           (step_scrape _ shard1_collected eq_refl eq_refl)).
Qed.

(** The storage cycles of two shards, in either order. *)
Lemma collector_calls_commute_witness :
  let op1 := CollectMetrics users_db "shard1" "prod" in
  let op2 := CollectMetrics views_db "shard2" "prod" in
  opTarget op1 <> opTarget op2 /\
  exec (@runOp decimalStrconv op1 ++ @runOp decimalStrconv op2) ∅ =
  exec (@runOp decimalStrconv op2 ++ @runOp decimalStrconv op1) ∅.
Proof.
  intros op1 op2.
  assert (opTarget op1 <> opTarget op2) as Hne by (intros Heq; discriminate Heq).
  split; [exact Hne|].
  destruct (@collector_calls_commute decimalStrconv op1 op2 ∅ (or_introl Hne))
    as [_ Hexec].
  exact Hexec.
Defined.

(** The export of the worked process list, with its two writes in either
    order. *)
Lemma export_order_irrelevant_witness :
  let userDbCount := foldl (@processlistRow decimalStrconv) ∅ processlist_rows in
  let root :=
    EvSet processListCount ["shard1"; "root"; "UNKNOWN_DB"; "prod"] 2%float in
  let unknown :=
    EvSet processListCount ["shard1"; "UNKNOWN_USER"; "app"; "prod"] 1%float in
  exec [root; unknown] ∅ = exec (exportProcesslist "shard1" "prod" userDbCount) ∅ /\
  exec [unknown; root] ∅ = exec (exportProcesslist "shard1" "prod" userDbCount) ∅.
Proof.
  intros userDbCount root unknown. split.
  - apply (export_order_irrelevant "shard1" "prod" userDbCount).
    vm_compute. first [reflexivity | apply perm_swap].
  - apply (export_order_irrelevant "shard1" "prod" userDbCount).
    vm_compute. first [reflexivity | apply perm_swap].
Defined.



(** The server that loses the connection after the storage query: the
    storage gauges are written, the process-list gauge is not. *)
Lemma processlist_failure_keeps_storage_witness :
  let evs := @collectMetrics decimalStrconv lost_db "shard1" "prod" in
  lost_db tableSizeQuery = QueryRows [users_row; short_row; view_row] /\
  lost_db showProcesslistQuery =
    QueryError "Lost connection to MySQL server during query" /\
  exec evs ∅ !! (tableSize, ["shard1"; "app"; "users"; "prod"]) =
    Some 2048%float /\
  exec evs ∅ !! (processListCount, ["shard1"; "root"; "UNKNOWN_DB"; "prod"]) =
    None.
Proof.
  intros evs.
  assert (lost_db tableSizeQuery = QueryRows [users_row; short_row; view_row])
    as Hq by (vm_compute; reflexivity).
  assert (lost_db showProcesslistQuery =
            QueryError "Lost connection to MySQL server during query")
    as Hp by (vm_compute; reflexivity).
  split; [exact Hq|]. split; [exact Hp|].
  destruct (@processlist_failure_keeps_storage decimalStrconv lost_db
              "shard1" "prod" _ _ ∅ Hq Hp) as (_ & Hexec & Hkeep).
  split.
  - unfold evs. rewrite Hexec. vm_compute. reflexivity.
  - destruct (Hkeep ["shard1"; "root"; "UNKNOWN_DB"; "prod"]) as [Hk _].
    unfold evs. rewrite Hk. apply lookup_empty.
Defined.


(** The smallest and the largest 64-bit count. *)
Lemma int_count_round_trip_witness :
  ParseInt (FormatInt (- 2 ^ 63)) = Some (- 2 ^ 63) /\
  @convertInt decimalStrconv (VBytes "9223372036854775807") =
    Some (2 ^ 63 - 1).
Proof.
  split.
  - destruct (@int_count_round_trip decimalStrconv "shard1" "prod" VNil VNil
                (- 2 ^ 63)) as [Hparse _]; [lia|exact Hparse].
  - destruct (@int_count_round_trip decimalStrconv "shard1" "prod" VNil VNil
                (2 ^ 63 - 1)) as (_ & _ & Hconv & _); [lia|exact Hconv].
Defined.

(** The run of shard1: two goroutines, both polling. *)
Lemma goroutines_accounted_witness :
  @reachable decimalStrconv (fun _ => true) [shard1] shard1_scraped /\
  polling (goroutines shard1_scraped) ≡ₚ [shard1] /\
  counting (goroutines shard1_scraped) ≡ₚ polling (goroutines shard1_scraped) /\
  (length (goroutines shard1_scraped) <= 2)%nat.
Proof.
  split; [exact shard1_scraped_reachable|].
  destruct (@goroutines_accounted decimalStrconv (fun _ => true) [shard1]
              shard1_scraped shard1_scraped_reachable)
    as (Hd & Hc & Hlen & _).
  split; [exact Hd|]. split; [exact Hc|exact Hlen].
Defined.

(** The run of shard1 when it first listens: the goroutine of shard1 is
    there. *)
Lemma listening_after_spawning_witness :
  @reachable decimalStrconv (fun _ => false) [shard1] shard1_waiting /\
  listening shard1_waiting = true /\
  (GOpen shard1 ∈ goroutines shard1_waiting \/
   GMetrics shard1 ∈ goroutines shard1_waiting).
Proof.
  split; [exact (shard1_waiting_reachable _)|]. split; [reflexivity|].
  destruct (@listening_after_spawning decimalStrconv (fun _ => false) [shard1]
              shard1_waiting (shard1_waiting_reachable _) eq_refl)
    as (_ & _ & Hall).
  apply Hall, list_elem_of_here.
Defined.


(** The two scrapes of the run of shard1: the first is empty, the second
    lists the three series of the table users. *)
Lemma scrapes_never_lose_series_witness :
  let second := render (registry shard1_collected) in
  served shard1_scraped = [[]; second] /\
  series [] ⊆ series second /\ (length (@nil Sample) <= length second)%nat /\
  NoDup (series second).
Proof.
  intros second. split; [reflexivity|].
  destruct (@scrapes_never_lose_series decimalStrconv (fun _ => true) [shard1]
              shard1_scraped shard1_scraped_reachable) as [Hmono Hnd].
  destruct (Hmono 0%nat 1%nat [] second) as [Hsub Hlen];
    [lia|reflexivity|reflexivity|].
  split; [exact Hsub|]. split; [exact Hlen|].
  apply Hnd, list_elem_of_further, list_elem_of_here.
Defined.


(** No configuration file, and a malformed one of which shard1 was decoded:
    the process exits with status 1 and has started nothing. *)
Lemma config_failure_is_fatal_witness :
  (readConfig no_file decode_shard1 "config.yaml").2 =
    Some "open config.yaml: no such file or directory" /\
  exit (boot no_file decode_shard1) = Some 1 /\
  (readConfig some_file decode_malformed "config.yaml").1 =
    {| Databases := [shard1] |} /\
  exit (boot some_file decode_malformed) = Some 1 /\
  goroutines (boot some_file decode_malformed) = [].
Proof.
  split; [reflexivity|].
  destruct (@config_failure_is_fatal decimalStrconv no_file decode_shard1
              (fun _ => true) "open config.yaml: no such file or directory"
              (boot no_file decode_shard1) eq_refl) as [_ Hfile].
  destruct (Hfile (rtc_refl _ _)) as (Hexit & _).
  split; [exact Hexit|]. split; [reflexivity|].
  destruct (@config_failure_is_fatal decimalStrconv some_file decode_malformed
              (fun _ => true) "yaml: line 1: did not find expected key"
              (boot some_file decode_malformed) eq_refl) as [_ Hyaml].
  destruct (Hyaml (rtc_refl _ _)) as (Hexit' & Hgo & _).
  split; [exact Hexit'|exact Hgo].
Defined.

(** The configuration file of shard1: the run of shard1 is a run of the
    process started from it. *)
Lemma config_is_the_decoded_file_witness :
  (readConfig some_file decode_shard1 "config.yaml").2 = None /\
  exists data config,
    some_file "config.yaml" = inr data /\
    decode_shard1 data {| Databases := [] |} = (config, None) /\
    @reachable decimalStrconv (fun _ => true) (Databases config) shard1_spawned.
Proof.
  split; [reflexivity|].
  destruct (@config_is_the_decoded_file decimalStrconv some_file decode_shard1
              (fun _ => true) shard1_spawned eq_refl)
    as (data & config & Hfile & Hdecode & Hr & _).
  - apply rtc_once.
    exact (step_go _ (start [shard1]) shard1 [] eq_refl eq_refl).
  - by exists data, config.
Defined.
